(** * MafIterator.h: MAF sequences, blocks and the filter-iterator pipeline

    A shallow embedding of the classes declared in [MafIterator.h]
    ([MafSequence], [MafBlock], [BlockSizeMafIterator], the trash side of
    the three windowed filters, [OutputMafIterator] and
    [MafIteratorSynchronizer]) together with the properties stated for
    them.  C++ [unsigned int] values are integers in [0, 2^32) with the
    wrap-around written out; a null pointer is [None]; a thrown
    [Exception] is the [Throw] branch of [result]. *)

From Stdlib Require Import ZArith QArith Lia Bool Ascii String.
From stdpp Require Import base list strings pretty gmap.

Local Open Scope string_scope.
Local Open Scope Z_scope.

(** ** Machine integers and exceptions *)

Definition UINT_MODULUS : Z := 2 ^ 32.

(** Conversion of an integer to [unsigned int]. *)
Definition wrap32 (z : Z) : Z := z mod UINT_MODULUS.

Inductive Exception : Type :=
| mkException (what : string)
| IndexOutOfBoundsException (what : string)
| SequenceNotAlignedException (what : string).

Inductive result (A : Type) : Type :=
| Return (a : A)
| Throw (e : Exception).
Arguments Return {A} a.
Arguments Throw {A} e.

Definition returnsNormally {A} (r : result A) : Prop :=
  match r with Return _ => True | Throw _ => False end.

Definition throws {A} (r : result A) : Prop :=
  match r with Return _ => False | Throw _ => True end.

(** ** std::string operations used by the constructors *)

(** [name.find(".")]: position of the first occurrence, [None] for
    [std::string::npos]. *)
Definition find (pattern s : string) : option nat := String.index 0 pattern s.

(** [s.substr(pos)]: the suffix starting at [pos]. *)
Definition substr_from (pos : nat) (s : string) : string :=
  String.substring pos (String.length s - pos) s.

(** [s.substr(pos, n)]. *)
Definition substr (pos n : nat) (s : string) : string :=
  String.substring pos n s.

(** ** The sequence content *)

(** Symbols of the DNA alphabet are kept as the characters that denote
    them; the gap is the dash. *)
Definition Symbol : Type := ascii.

Definition isGap (c : Symbol) : bool := Ascii.eqb c "-"%char.

(** The number of non-gap positions, as a natural number. *)
Fixpoint nonGapCount (content : list Symbol) : nat :=
  match content with
  | [] => 0
  | c :: rest => if isGap c then nonGapCount rest else S (nonGapCount rest)
  end.

(** Modelled from the spec: [SequenceTools::getNumberOfSites] is not part
    of this header; it is the count of non-gap symbols of a sequence,
    returned as an [unsigned int]. *)
Definition SequenceTools_getNumberOfSites (content : list Symbol) : Z :=
  wrap32 (Z.of_nat (nonGapCount content)).

(** ** MafSequence *)

Record MafSequence : Type := mkMafSequence {
  (* inherited from SequenceWithAnnotation *)
  name_           : string;
  content_        : list Symbol;
  (* declared in MafSequence *)
  hasCoordinates_ : bool;
  begin_          : Z;
  species_        : string;
  chromosome_     : string;
  strand_         : ascii;
  size_           : Z;
  srcSize_        : Z
}.

Definition set_size_ (v : Z) (s : MafSequence) : MafSequence :=
  mkMafSequence (name_ s) (content_ s) (hasCoordinates_ s) (begin_ s)
    (species_ s) (chromosome_ s) (strand_ s) v (srcSize_ s).

Definition set_content_ (c : list Symbol) (s : MafSequence) : MafSequence :=
  mkMafSequence (name_ s) c (hasCoordinates_ s) (begin_ s)
    (species_ s) (chromosome_ s) (strand_ s) (size_ s) (srcSize_ s).

Definition set_species_chromosome_ (sp chr : string) (s : MafSequence)
  : MafSequence :=
  mkMafSequence (name_ s) (content_ s) (hasCoordinates_ s) (begin_ s)
    sp chr (strand_ s) (size_ s) (srcSize_ s).

Definition NUL : ascii := Ascii.zero.

(** Body shared by the two constructors that take a name: recompute the
    genomic size, then split the name at the first dot. *)
Definition constructor_body (name : string) (s : MafSequence) : MafSequence :=
  let s := set_size_ (SequenceTools_getNumberOfSites (content_ s)) s in
  match find "." name with
  | Some pos =>
      set_species_chromosome_ (substr 0 pos name) (substr_from (pos + 1) name) s
  | None => s
  end.

(** [MafSequence()] *)
Definition MafSequence_default : MafSequence :=
  set_size_ 0 (mkMafSequence "" [] false 0 "" "" NUL 0 0).

(** [MafSequence(name, sequence)] *)
Definition MafSequence_named (name sequence : string) : MafSequence :=
  constructor_body name
    (mkMafSequence name (list_ascii_of_string sequence) false 0 "" "" NUL 0 0).

(** [MafSequence(name, sequence, begin, strand, srcSize)] *)
Definition MafSequence_located (name sequence : string) (begin : Z)
    (strand : ascii) (srcSize : Z) : MafSequence :=
  constructor_body name
    (mkMafSequence name (list_ascii_of_string sequence) (0 <? begin) begin
       "" "" strand 0 srcSize).

Definition hasCoordinates (s : MafSequence) : bool := hasCoordinates_ s.

Definition removeCoordinates (s : MafSequence) : MafSequence :=
  mkMafSequence (name_ s) (content_ s) false 0
    (species_ s) (chromosome_ s) (strand_ s) (size_ s) (srcSize_ s).

Definition start (s : MafSequence) : result Z :=
  if hasCoordinates_ s then Return (begin_ s)
  else Throw (mkException
                "MafSequence::start(). Sequence does not have coordinates.").

Definition stop (s : MafSequence) : result Z :=
  if hasCoordinates_ s then Return (wrap32 (begin_ s + size_ s - 1))
  else Throw (mkException
                "MafSequence::stop(). Sequence does not have coordinates.").

Definition getSpecies (s : MafSequence) : string := species_ s.
Definition getChromosome (s : MafSequence) : string := chromosome_ s.
Definition getStrand (s : MafSequence) : ascii := strand_ s.
Definition getGenomicSize (s : MafSequence) : Z := size_ s.
Definition getSrcSize (s : MafSequence) : Z := srcSize_ s.

Definition setStart (begin : Z) (s : MafSequence) : MafSequence :=
  mkMafSequence (name_ s) (content_ s) true begin
    (species_ s) (chromosome_ s) (strand_ s) (size_ s) (srcSize_ s).

Definition setChromosome (chr : string) (s : MafSequence) : MafSequence :=
  set_species_chromosome_ (species_ s) chr s.

Definition setStrand (strand : ascii) (s : MafSequence) : MafSequence :=
  mkMafSequence (name_ s) (content_ s) (hasCoordinates_ s) (begin_ s)
    (species_ s) (chromosome_ s) strand (size_ s) (srcSize_ s).

Definition setSrcSize (srcSize : Z) (s : MafSequence) : MafSequence :=
  mkMafSequence (name_ s) (content_ s) (hasCoordinates_ s) (begin_ s)
    (species_ s) (chromosome_ s) (strand_ s) (size_ s) srcSize.

(** *** The listener hooks

    The sequence is its own listener; these are the eight private hooks
    in the order of the header. *)

Definition beforeSequenceChanged (s : MafSequence) : MafSequence := s.
Definition afterSequenceChanged (s : MafSequence) : MafSequence :=
  set_size_ (SequenceTools_getNumberOfSites (content_ s)) s.
Definition beforeSequenceInserted (s : MafSequence) : MafSequence := s.
Definition afterSequenceInserted (s : MafSequence) : MafSequence :=
  set_size_ (SequenceTools_getNumberOfSites (content_ s)) s.
Definition beforeSequenceDeleted (s : MafSequence) : MafSequence := s.
Definition afterSequenceDeleted (s : MafSequence) : MafSequence :=
  set_size_ (SequenceTools_getNumberOfSites (content_ s)) s.
Definition beforeSequenceSubstituted (s : MafSequence) : MafSequence := s.
Definition afterSequenceSubstituted (s : MafSequence) : MafSequence := s.

(** *** Content mutators of the base class

    Modelled from the spec: the mutators of the editable symbol list
    ([SequenceWithAnnotation] and its bases) are not part of this header.
    Each one notifies the listener before and after the edit with the
    event of its kind: a wholesale replacement is a change, adding a
    symbol an insertion, removing one a deletion, and overwriting one a
    substitution.  A position outside the content is refused. *)

Definition outOfBounds {A} (who : string) : result A :=
  Throw (IndexOutOfBoundsException who).

Definition setContent (content : list Symbol) (s : MafSequence)
  : MafSequence :=
  afterSequenceChanged (set_content_ content (beforeSequenceChanged s)).

Definition addElement (c : Symbol) (s : MafSequence) : MafSequence :=
  let s := beforeSequenceInserted s in
  afterSequenceInserted (set_content_ (content_ s ++ [c]) s).

Definition addElementAt (pos : nat) (c : Symbol) (s : MafSequence)
  : result MafSequence :=
  if decide (pos < length (content_ s))%nat then
    let s := beforeSequenceInserted s in
    Return (afterSequenceInserted
              (set_content_ (take pos (content_ s) ++ c :: drop pos (content_ s)) s))
  else outOfBounds "addElement".

Definition deleteElement (pos : nat) (s : MafSequence) : result MafSequence :=
  if decide (pos < length (content_ s))%nat then
    let s := beforeSequenceDeleted s in
    Return (afterSequenceDeleted (set_content_ (delete pos (content_ s)) s))
  else outOfBounds "deleteElement".

Definition setElement (pos : nat) (c : Symbol) (s : MafSequence)
  : result MafSequence :=
  if decide (pos < length (content_ s))%nat then
    let s := beforeSequenceSubstituted s in
    Return (afterSequenceSubstituted
              (set_content_ (<[pos := c]> (content_ s)) s))
  else outOfBounds "setElement".

(** The cache is fresh when it holds the count of non-gap symbols. *)
Definition genomicSizeFresh (s : MafSequence) : Prop :=
  getGenomicSize s = Z.of_nat (nonGapCount (content_ s)).

(** ** MafBlock *)

(** A [double] is only stored and handed back in this header; scores are
    carried as rationals. *)
Definition double : Type := Q.

(** Modelled from the spec: [AlignedSequenceContainer] is not part of this
    header.  It is an ordered collection of sequences that share one
    column count, which it records; a sequence of another length is
    refused. *)
Record AlignedSequenceContainer : Type := mkAlignedSequenceContainer {
  sequences_ : list MafSequence;
  length_    : Z
}.

Definition AlignedSequenceContainer_empty : AlignedSequenceContainer :=
  mkAlignedSequenceContainer [] 0.

Definition AlignedSequenceContainer_addSequence (s : MafSequence)
    (c : AlignedSequenceContainer)
  : result AlignedSequenceContainer :=
  let n := Z.of_nat (length (content_ s)) in
  match sequences_ c with
  | [] => Return (mkAlignedSequenceContainer [s] n)
  | _ :: _ =>
      if n =? length_ c
      then Return (mkAlignedSequenceContainer (sequences_ c ++ [s]) (length_ c))
      else Throw (SequenceNotAlignedException "addSequence")
  end.

Record MafBlock : Type := mkMafBlock {
  score_     : double;
  pass_      : Z;
  alignment_ : AlignedSequenceContainer
}.

(** [MafBlock()] *)
Definition MafBlock_default : MafBlock :=
  mkMafBlock (-1 # 1)%Q 0 AlignedSequenceContainer_empty.

Definition setScore (score : double) (b : MafBlock) : MafBlock :=
  mkMafBlock score (pass_ b) (alignment_ b).
Definition setPass (pass : Z) (b : MafBlock) : MafBlock :=
  mkMafBlock (score_ b) pass (alignment_ b).
Definition getScore (b : MafBlock) : double := score_ b.
Definition getPass (b : MafBlock) : Z := pass_ b.
Definition getAlignment (b : MafBlock) : AlignedSequenceContainer :=
  alignment_ b.
Definition getNumberOfSequences (b : MafBlock) : Z :=
  wrap32 (Z.of_nat (length (sequences_ (alignment_ b)))).
Definition getNumberOfSites (b : MafBlock) : Z := length_ (alignment_ b).

Definition addSequence (s : MafSequence) (b : MafBlock)
  : result MafBlock :=
  match AlignedSequenceContainer_addSequence s (alignment_ b) with
  | Return a => Return (mkMafBlock (score_ b) (pass_ b) a)
  | Throw e => Throw e
  end.

(** ** Streams *)

(** Modelled from the spec: the logging collaborator ([OutputStream]) is
    not part of this header; it accepts line-oriented diagnostic text.  A
    stream is the text written to it so far. *)
Definition OutputStream : Type := string.

Definition endl : string := String (ascii_of_nat 10) "".

Definition put (out : OutputStream) (text : string) : OutputStream :=
  out ++ text.
Definition putUInt (out : OutputStream) (n : Z) : OutputStream :=
  out ++ pretty n.
Definition endLine (out : OutputStream) : OutputStream := out ++ endl.

(** A [std::ostream] is likewise the text written to it. *)
Definition ostream : Type := string.

(** ** The iterator protocol *)

(** [MafTrashIterator]: the interface of the stages that keep what they
    removed. *)
Class MafTrashIterator (T : Type) : Type :=
  nextRemovedBlock : T -> option MafBlock * T.

Section Pipeline.

(** [World] is the state of whatever stands behind a [MafIterator*]:
    the upstream stages and the data they read.  A call of the virtual
    [nextBlock] through such a pointer yields a block or the null
    pointer and leaves a new state behind.  No stage of this header
    catches anything: an exception raised upstream unwinds through it
    unchanged, and such calls are left out. *)
Context {World : Type}.

Definition MafIteratorPtr : Type := World -> option MafBlock * World.

Record AbstractFilterMafIterator : Type := mkAbstractFilterMafIterator {
  iterator_  : MafIteratorPtr;
  logstream_ : option OutputStream;
  verbose_   : bool
}.

(** The constructor reads the global [ApplicationTools::message]. *)
Definition AbstractFilterMafIterator_new
    (ApplicationTools_message : option OutputStream)
    (iterator : MafIteratorPtr) : AbstractFilterMafIterator :=
  mkAbstractFilterMafIterator iterator ApplicationTools_message true.

Definition setLogStream (logstream : option OutputStream)
    (f : AbstractFilterMafIterator) : AbstractFilterMafIterator :=
  mkAbstractFilterMafIterator (iterator_ f) logstream (verbose_ f).

Definition verbose (f : AbstractFilterMafIterator) : bool := verbose_ f.

Definition setVerbose (yn : bool) (f : AbstractFilterMafIterator)
  : AbstractFilterMafIterator :=
  mkAbstractFilterMafIterator (iterator_ f) (logstream_ f) yn.

(** *** BlockSizeMafIterator *)

Record BlockSizeMafIterator : Type := mkBlockSizeMafIterator {
  bs_base  : AbstractFilterMafIterator;
  minSize_ : Z
}.

Definition BlockSizeMafIterator_new
    (ApplicationTools_message : option OutputStream)
    (iterator : MafIteratorPtr) (minSize : Z) : BlockSizeMafIterator :=
  mkBlockSizeMafIterator
    (AbstractFilterMafIterator_new ApplicationTools_message iterator) minSize.

(** The guarded write of the loop body: nothing happens when
    [logstream_] is null. *)
Definition logDiscarded (b : MafBlock) (f : AbstractFilterMafIterator)
  : AbstractFilterMafIterator :=
  match logstream_ f with
  | Some out =>
      let out :=
        endLine
          (put (putUInt (put out "BLOCK SIZE FILTER: block with size ")
                  (getNumberOfSites b))
             " was discarded.") in
      mkAbstractFilterMafIterator (iterator_ f) (Some out) (verbose_ f)
  | None => f
  end.

(** What a call leaves behind: the filter object (its log stream is
    written to), the upstream state, and the blocks passed to
    [delete], oldest first. *)
Record BlockSizeState : Type := mkBlockSizeState {
  bs_self    : BlockSizeMafIterator;
  bs_world   : World;
  bs_deleted : list MafBlock
}.

(** [BlockSizeMafIterator::nextBlock].  The do-while loop runs once per
    unit of [fuel]; [None] means the loop was still running when the
    fuel ran out. *)
Fixpoint BlockSizeMafIterator_nextBlock (fuel : nat) (st : BlockSizeState)
  : option (option MafBlock * BlockSizeState) :=
  match fuel with
  | O => None
  | S fuel' =>
      let self := bs_self st in
      let (block, w) := iterator_ (bs_base self) (bs_world st) in
      match block with
      | None => Some (None, mkBlockSizeState self w (bs_deleted st))
      | Some b =>
          let test := getNumberOfSites b <? minSize_ self in
          if test then
            let self' :=
              mkBlockSizeMafIterator (logDiscarded b (bs_base self))
                (minSize_ self) in
            BlockSizeMafIterator_nextBlock fuel'
              (mkBlockSizeState self' w (bs_deleted st ++ [b]))
          else Some (Some b, mkBlockSizeState self w (bs_deleted st))
      end
  end.

(** *** The windowed filters: the trash side

    [nextBlock] of these three classes is defined outside this header;
    [nextRemovedBlock] is inline and is the same in the three. *)

Record AlignmentFilterMafIterator : Type := mkAlignmentFilterMafIterator {
  af_base               : AbstractFilterMafIterator;
  af_species_           : list string;
  af_windowSize_        : Z;
  af_step_              : Z;
  af_maxGap_            : Z;
  af_blockBuffer_       : list MafBlock;
  af_trashBuffer_       : list MafBlock;
  af_window_            : list (list bool);
  af_keepTrashedBlocks_ : bool
}.

Definition AlignmentFilterMafIterator_new
    (ApplicationTools_message : option OutputStream)
    (iterator : MafIteratorPtr) (species : list string)
    (windowSize step maxGap : Z) (keepTrashedBlocks : bool)
  : AlignmentFilterMafIterator :=
  mkAlignmentFilterMafIterator
    (AbstractFilterMafIterator_new ApplicationTools_message iterator)
    species windowSize step maxGap [] [] (replicate (length species) [])
    keepTrashedBlocks.

Definition AlignmentFilterMafIterator_nextRemovedBlock
    (self : AlignmentFilterMafIterator)
  : option MafBlock * AlignmentFilterMafIterator :=
  match af_trashBuffer_ self with
  | [] => (None, self)
  | block :: rest =>
      (Some block,
       mkAlignmentFilterMafIterator (af_base self) (af_species_ self)
         (af_windowSize_ self) (af_step_ self) (af_maxGap_ self)
         (af_blockBuffer_ self) rest (af_window_ self)
         (af_keepTrashedBlocks_ self))
  end.

Record MaskFilterMafIterator : Type := mkMaskFilterMafIterator {
  mf_base               : AbstractFilterMafIterator;
  mf_species_           : list string;
  mf_windowSize_        : Z;
  mf_step_              : Z;
  mf_maxMasked_         : Z;
  mf_blockBuffer_       : list MafBlock;
  mf_trashBuffer_       : list MafBlock;
  mf_window_            : list (list bool);
  mf_keepTrashedBlocks_ : bool
}.

Definition MaskFilterMafIterator_new
    (ApplicationTools_message : option OutputStream)
    (iterator : MafIteratorPtr) (species : list string)
    (windowSize step maxMasked : Z) (keepTrashedBlocks : bool)
  : MaskFilterMafIterator :=
  mkMaskFilterMafIterator
    (AbstractFilterMafIterator_new ApplicationTools_message iterator)
    species windowSize step maxMasked [] [] (replicate (length species) [])
    keepTrashedBlocks.

Definition MaskFilterMafIterator_nextRemovedBlock
    (self : MaskFilterMafIterator)
  : option MafBlock * MaskFilterMafIterator :=
  match mf_trashBuffer_ self with
  | [] => (None, self)
  | block :: rest =>
      (Some block,
       mkMaskFilterMafIterator (mf_base self) (mf_species_ self)
         (mf_windowSize_ self) (mf_step_ self) (mf_maxMasked_ self)
         (mf_blockBuffer_ self) rest (mf_window_ self)
         (mf_keepTrashedBlocks_ self))
  end.

Record QualityFilterMafIterator : Type := mkQualityFilterMafIterator {
  qf_base               : AbstractFilterMafIterator;
  qf_species_           : list string;
  qf_windowSize_        : Z;
  qf_step_              : Z;
  qf_minQual_           : Z;
  qf_blockBuffer_       : list MafBlock;
  qf_trashBuffer_       : list MafBlock;
  qf_window_            : list (list Z);
  qf_keepTrashedBlocks_ : bool
}.

Definition QualityFilterMafIterator_new
    (ApplicationTools_message : option OutputStream)
    (iterator : MafIteratorPtr) (species : list string)
    (windowSize step minQual : Z) (keepTrashedBlocks : bool)
  : QualityFilterMafIterator :=
  mkQualityFilterMafIterator
    (AbstractFilterMafIterator_new ApplicationTools_message iterator)
    species windowSize step minQual [] [] (replicate (length species) [])
    keepTrashedBlocks.

Definition QualityFilterMafIterator_nextRemovedBlock
    (self : QualityFilterMafIterator)
  : option MafBlock * QualityFilterMafIterator :=
  match qf_trashBuffer_ self with
  | [] => (None, self)
  | block :: rest =>
      (Some block,
       mkQualityFilterMafIterator (qf_base self) (qf_species_ self)
         (qf_windowSize_ self) (qf_step_ self) (qf_minQual_ self)
         (qf_blockBuffer_ self) rest (qf_window_ self)
         (qf_keepTrashedBlocks_ self))
  end.

#[export] Instance AlignmentFilter_trash
  : MafTrashIterator AlignmentFilterMafIterator :=
  AlignmentFilterMafIterator_nextRemovedBlock.
#[export] Instance MaskFilter_trash
  : MafTrashIterator MaskFilterMafIterator :=
  MaskFilterMafIterator_nextRemovedBlock.
#[export] Instance QualityFilter_trash
  : MafTrashIterator QualityFilterMafIterator :=
  QualityFilterMafIterator_nextRemovedBlock.

(** [trashBuffer_.push_back(block)], the one way a block enters the
    trash queue. *)
Definition af_trash_push_back (b : MafBlock)
    (self : AlignmentFilterMafIterator) : AlignmentFilterMafIterator :=
  mkAlignmentFilterMafIterator (af_base self) (af_species_ self)
    (af_windowSize_ self) (af_step_ self) (af_maxGap_ self)
    (af_blockBuffer_ self) (af_trashBuffer_ self ++ [b]) (af_window_ self)
    (af_keepTrashedBlocks_ self).
Definition mf_trash_push_back (b : MafBlock)
    (self : MaskFilterMafIterator) : MaskFilterMafIterator :=
  mkMaskFilterMafIterator (mf_base self) (mf_species_ self)
    (mf_windowSize_ self) (mf_step_ self) (mf_maxMasked_ self)
    (mf_blockBuffer_ self) (mf_trashBuffer_ self ++ [b]) (mf_window_ self)
    (mf_keepTrashedBlocks_ self).
Definition qf_trash_push_back (b : MafBlock)
    (self : QualityFilterMafIterator) : QualityFilterMafIterator :=
  mkQualityFilterMafIterator (qf_base self) (qf_species_ self)
    (qf_windowSize_ self) (qf_step_ self) (qf_minQual_ self)
    (qf_blockBuffer_ self) (qf_trashBuffer_ self ++ [b]) (qf_window_ self)
    (qf_keepTrashedBlocks_ self).

(** *** OutputMafIterator

    [writeHeader] and [writeBlock] are declared in the header and
    defined elsewhere.  Both are const member functions writing to the
    stream they are given; [writeBlock] takes the block by const
    reference. *)
Section Output.

Variable writeHeader : bool -> ostream -> ostream.
Variable writeBlock : bool -> ostream -> MafBlock -> ostream.

Record OutputMafIterator : Type := mkOutputMafIterator {
  om_base : AbstractFilterMafIterator;
  output_ : option ostream;
  mask_   : bool
}.

Definition OutputMafIterator_new
    (ApplicationTools_message : option OutputStream)
    (iterator : MafIteratorPtr) (out : option ostream) (mask : bool)
  : OutputMafIterator :=
  let base :=
    AbstractFilterMafIterator_new ApplicationTools_message iterator in
  match out with
  | Some o => mkOutputMafIterator base (Some (writeHeader mask o)) mask
  | None => mkOutputMafIterator base None mask
  end.

Definition OutputMafIterator_nextBlock (self : OutputMafIterator)
    (w : World) : option MafBlock * (OutputMafIterator * World) :=
  let (block, w') := iterator_ (om_base self) w in
  match output_ self, block with
  | Some o, Some b =>
      (block,
       (mkOutputMafIterator (om_base self)
          (Some (writeBlock (mask_ self) o b)) (mask_ self), w'))
  | _, _ => (block, (self, w'))
  end.

(** [n] successive calls: the blocks returned (null pointers
    included) and the final state. *)
Fixpoint OutputMafIterator_run (n : nat) (self : OutputMafIterator)
    (w : World) : list (option MafBlock) * (OutputMafIterator * World) :=
  match n with
  | O => ([], (self, w))
  | S n' =>
      let '(block, (self', w')) := OutputMafIterator_nextBlock self w in
      let '(blocks, final) := OutputMafIterator_run n' self' w' in
      (block :: blocks, final)
  end.

End Output.

(** *** MafIteratorSynchronizer *)

Record MafIteratorSynchronizer : Type := mkMafIteratorSynchronizer {
  sy_base            : AbstractFilterMafIterator;
  secondaryIterator_ : MafIteratorPtr
}.

Definition MafIteratorSynchronizer_new
    (ApplicationTools_message : option OutputStream)
    (primaryIterator secondaryIterator : MafIteratorPtr)
  : MafIteratorSynchronizer :=
  mkMafIteratorSynchronizer
    (AbstractFilterMafIterator_new ApplicationTools_message primaryIterator)
    secondaryIterator.

(** The state is the world shared by the two iterators and the blocks
    passed to [delete], oldest first. *)
Definition MafIteratorSynchronizer_nextBlock
    (self : MafIteratorSynchronizer) (w : World) (deleted : list MafBlock)
  : option MafBlock * (World * list MafBlock) :=
  let (block, w1) := iterator_ (sy_base self) w in
  let (secondBlock, w2) := secondaryIterator_ self w1 in
  match secondBlock with
  | Some sb => (block, (w2, (deleted ++ [sb])%list))
  | None => (block, (w2, deleted))
  end.

End Pipeline.

Arguments MafIteratorPtr World : clear implicits.
Arguments AbstractFilterMafIterator World : clear implicits.
Arguments BlockSizeMafIterator World : clear implicits.
Arguments BlockSizeState World : clear implicits.
Arguments AlignmentFilterMafIterator World : clear implicits.
Arguments MaskFilterMafIterator World : clear implicits.
Arguments QualityFilterMafIterator World : clear implicits.
Arguments OutputMafIterator World : clear implicits.
Arguments MafIteratorSynchronizer World : clear implicits.

(** [TrashIteratorAdapter]: a trash iterator seen as a block iterator;
    the wrapped object is the world behind the pointer. *)
Definition TrashIteratorAdapter_nextBlock {T} `{MafTrashIterator T}
  : MafIteratorPtr T := nextRemovedBlock.

(** A finite upstream: a sequence of blocks handed out one per call, then
    the null pointer for ever. *)
Definition listSource : MafIteratorPtr (list MafBlock) :=
  fun blocks =>
    match blocks with
    | [] => (None, [])
    | b :: rest => (Some b, rest)
    end.

(** An iterator whose calls are recorded: each call appends [tag] to a
    journal kept next to the world. *)
Definition journalled {World Tag} (tag : Tag) (it : MafIteratorPtr World)
  : MafIteratorPtr (World * list Tag) :=
  fun '(w, journal) =>
    let (block, w') := it w in (block, (w', (journal ++ [tag])%list)).

Inductive Pull : Type := PullPrimary | PullSecondary.

(** * Vocabulary of the properties *)

(** Whether a name contains the separator. *)
Fixpoint hasSeparator (s : string) : bool :=
  match s with
  | EmptyString => false
  | String a rest => if Ascii.eqb a "."%char then true else hasSeparator rest
  end.

(** A block made of one sequence. *)
Definition singletonBlock (name sequence : string) : MafBlock :=
  match addSequence (MafSequence_named name sequence) MafBlock_default with
  | Return b => b
  | Throw _ => MafBlock_default
  end.

(** The line written for a discarded block. *)
Definition discardMessage (b : MafBlock) : string :=
  "BLOCK SIZE FILTER: block with size " ++ pretty (getNumberOfSites b)
    ++ " was discarded." ++ endl.

(** The text written for a run of discarded blocks. *)
Fixpoint discardLog (discarded : list MafBlock) : string :=
  match discarded with
  | [] => ""
  | b :: rest => discardMessage b ++ discardLog rest
  end.

Definition undersized (minSize : Z) (b : MafBlock) : Prop :=
  getNumberOfSites b < minSize.

(** What a caller may receive from a filter of threshold [minSize]: a
    block of at least that many sites, or the null pointer. *)
Definition qualifiesOrEnds (minSize : Z) (r : option MafBlock) : Prop :=
  match r with
  | Some b => minSize <= getNumberOfSites b
  | None => True
  end.

(** [n] successive calls of [BlockSizeMafIterator::nextBlock], each on
    the state the call before it left: what they returned, in order, and
    the final state.  [None] when one of them ran out of [fuel]. *)
Fixpoint BlockSizeMafIterator_calls {World} (n fuel : nat)
    (st : BlockSizeState World)
  : option (list (option MafBlock) * BlockSizeState World) :=
  match n with
  | O => Some ([], st)
  | S n' =>
      match BlockSizeMafIterator_nextBlock fuel st with
      | None => None
      | Some (r, st') =>
          match BlockSizeMafIterator_calls n' fuel st' with
          | Some (rs, final) => Some (r :: rs, final)
          | None => None
          end
      end
  end.

Definition threeBlocks : list MafBlock :=
  [ singletonBlock "human.chr1" "AC-";
    singletonBlock "human.chr1" "ACGTACGT";
    singletonBlock "human.chr2" "A" ].

(** A synchronizer whose two iterators keep a journal of their calls. *)
Definition journalledSynchronizer {World}
    (primary secondary : MafIteratorPtr World)
  : MafIteratorSynchronizer (World * list Pull) :=
  MafIteratorSynchronizer_new None
    (journalled PullPrimary primary) (journalled PullSecondary secondary).

(** Two finite sources side by side: the primary reads the first
    sequence, the secondary the second. *)
Definition primaryOfPair : MafIteratorPtr (list MafBlock * list MafBlock) :=
  fun '(p, s) => let (block, p') := listSource p in (block, (p', s)).
Definition secondaryOfPair : MafIteratorPtr (list MafBlock * list MafBlock) :=
  fun '(p, s) => let (block, s') := listSource s in (block, (p, s')).

(** [n] successive calls of [nextRemovedBlock]: what they returned, in
    order, and the object they leave. *)
Fixpoint drain {T} `{MafTrashIterator T} (n : nat) (self : T)
  : list (option MafBlock) * T :=
  match n with
  | O => ([], self)
  | S n' =>
      let (block, self') := nextRemovedBlock self in
      let (blocks, final) := drain n' self' in
      (block :: blocks, final)
  end.

(** What it means for the trash side of a filter to be a queue:
    [trashBuffer] reads the queue and [push_back] appends to it. *)
Definition TrashQueue {T} `{MafTrashIterator T}
    (trashBuffer : T -> list MafBlock) (push_back : MafBlock -> T -> T)
  : Prop :=
  forall self : T,
    (* an empty queue gives the null pointer and nothing changes *)
    (trashBuffer self = [] -> nextRemovedBlock self = (None, self)) /\
    (* otherwise the oldest block is removed and returned *)
    (forall (b : MafBlock) (rest : list MafBlock),
        trashBuffer self = b :: rest ->
        fst (nextRemovedBlock self) = Some b /\
        trashBuffer (snd (nextRemovedBlock self)) = rest) /\
    (* the null pointer is returned exactly on the empty queue *)
    (fst (nextRemovedBlock self) = None <-> trashBuffer self = []) /\
    (* blocks come out in the order they went in, then the null pointer *)
    fst (drain (S (length (trashBuffer self))) self)
      = (map Some (trashBuffer self) ++ [None])%list /\
    (* the end is not final: a block queued after it is returned next *)
    (forall b : MafBlock,
        trashBuffer (push_back b self) = (trashBuffer self ++ [b])%list /\
        (trashBuffer self = [] ->
           fst (nextRemovedBlock self) = None /\
           fst (nextRemovedBlock (push_back b (snd (nextRemovedBlock self))))
           = Some b)).

(** * Further members *)

(** ** MafSequence and MafBlock *)

(** [getDescription]: name, strand, then start and stop in decimal.  It
    calls [start] and [stop], which throw without coordinates.  C++ does
    not fix the order in which the operands of the sum are evaluated;
    [stop] is taken first here, so that without coordinates the
    exception is the one of [stop]. *)
Definition getDescription (s : MafSequence) : result string :=
  match stop s with
  | Throw e => Throw e
  | Return b =>
      match start s with
      | Throw e => Throw e
      | Return a =>
          Return (name_ s ++ String (strand_ s) "" ++ ":" ++ pretty a ++ "-"
                    ++ pretty b)
      end
  end.

(** The contribution of one symbol to the genomic size. *)
Definition nonGap (c : Symbol) : nat := if isGap c then 0 else 1.

(** The edits that notify the listener with a change, an insertion or a
    deletion: every content mutation but the substitution. *)
Inductive Edition : Type :=
| ContentSet (content : list Symbol)
| ElementAppended (c : Symbol)
| ElementInserted (pos : nat) (c : Symbol)
| ElementDeleted (pos : nat).

Definition applyEdition (e : Edition) (s : MafSequence) : result MafSequence :=
  match e with
  | ContentSet content => Return (setContent content s)
  | ElementAppended c => Return (addElement c s)
  | ElementInserted pos c => addElementAt pos c s
  | ElementDeleted pos => deleteElement pos s
  end.

(** What the lookups of a block throw. *)
Inductive BlockException : Type :=
| SequenceNotFoundException (what : string)
| Rethrown (e : Exception).

Inductive sought (A : Type) : Type :=
| Found (a : A)
| Raised (e : BlockException).
Arguments Found {A} a.
Arguments Raised {A} e.

(** [getSequence(i)]: the container hands out its [i]-th sequence and
    refuses an index past the last one. *)
Definition getSequence (i : nat) (b : MafBlock) : result MafSequence :=
  match sequences_ (alignment_ b) !! i with
  | Some s => Return s
  | None => Throw (IndexOutOfBoundsException "getSequence")
  end.

(** What [getSequenceForSpecies] throws when it finds nothing. *)
Definition notFound : sought MafSequence :=
  Raised (SequenceNotFoundException
    "MafBlock::getSequenceForSpecies. No sequence with the given species name in this block.").

(** The loop of [getSequenceForSpecies]: [remaining] indices are left to
    visit, starting at [i]. *)
Fixpoint getSequenceForSpecies_loop (remaining i : nat) (species : string)
    (b : MafBlock) : sought MafSequence :=
  match remaining with
  | O => notFound
  | S remaining' =>
      match getSequence i b with
      | Return seq =>
          if String.eqb (getSpecies seq) species then Found seq
          else getSequenceForSpecies_loop remaining' (S i) species b
      | Throw e => Raised (Rethrown e)
      end
  end.

Definition getSequenceForSpecies (species : string) (b : MafBlock)
  : sought MafSequence :=
  getSequenceForSpecies_loop (Z.to_nat (getNumberOfSequences b)) 0 species b.

(** [removeCoordinatesFromSequence(i)]: the sequence is modified in
    place, inside the container. *)
Definition removeCoordinatesFromSequence (i : nat) (b : MafBlock)
  : result MafBlock :=
  match getSequence i b with
  | Return seq =>
      Return (mkMafBlock (score_ b) (pass_ b)
                (mkAlignedSequenceContainer
                   (<[i := removeCoordinates seq]> (sequences_ (alignment_ b)))
                   (length_ (alignment_ b))))
  | Throw e => Throw e
  end.

(** A block of three aligned sequences, two of them of the same
    species. *)
Definition humanMouseBlock : MafBlock :=
  mkMafBlock (-1 # 1)%Q 0
    (mkAlignedSequenceContainer
       [ MafSequence_located "human.chr1" "ACG" 100 "+" 5000;
         MafSequence_located "mouse.chr3" "A-G" 500 "-" 9000;
         MafSequence_located "mouse.chr7" "AC-" 20 "+" 700 ] 3).

(** ** Consumers of the iterators *)

(** A consumer of the size filter: it calls [nextBlock] until the null
    pointer comes, at most [calls] times, and keeps the blocks.  [None]
    when a call ran out of [fuel] or the calls ran out. *)
Fixpoint BlockSizeMafIterator_collect {World} (calls fuel : nat)
    (st : BlockSizeState World)
  : option (list MafBlock * BlockSizeState World) :=
  match calls with
  | O => None
  | S calls' =>
      match BlockSizeMafIterator_nextBlock fuel st with
      | None => None
      | Some (None, st') => Some ([], st')
      | Some (Some b, st') =>
          match BlockSizeMafIterator_collect calls' fuel st' with
          | Some (bs, final) => Some (b :: bs, final)
          | None => None
          end
      end
  end.

Definition isUndersized (minSize : Z) (b : MafBlock) : bool :=
  getNumberOfSites b <? minSize.

(** [n] successive calls of the synchronizer: what they returned, in
    order, and the state they leave. *)
Fixpoint MafIteratorSynchronizer_run {World} (n : nat)
    (self : MafIteratorSynchronizer World) (w : World)
    (deleted : list MafBlock)
  : list (option MafBlock) * (World * list MafBlock) :=
  match n with
  | O => ([], (w, deleted))
  | S n' =>
      let '(block, (w', deleted')) :=
        MafIteratorSynchronizer_nextBlock self w deleted in
      let '(blocks, final) := MafIteratorSynchronizer_run n' self w' deleted' in
      (block :: blocks, final)
  end.

(** An upstream that never ends and never changes: the same block at
    every call. *)
Definition endlessSource (b : MafBlock) : MafIteratorPtr unit :=
  fun w => (Some b, w).

(** ** GtfFeatureReader *)

(** *** The input stream

    A [std::istream] is the characters not read yet and the two state
    flags that the reader can observe. *)
Record istream : Type := mkIstream {
  unread  : string;
  eofbit  : bool;
  failbit : bool
}.

Definition eof (input : istream) : bool := eofbit input.
Definition good (input : istream) : bool :=
  negb (eofbit input) && negb (failbit input).

Definition newline : ascii := ascii_of_nat 10.

(** The characters before the first newline and, when there is one, the
    characters after it. *)
Fixpoint untilNewline (s : string) : string * option string :=
  match s with
  | EmptyString => ("", None)
  | String c rest =>
      if Ascii.eqb c newline then ("", Some rest)
      else let (line, after) := untilNewline rest in (String c line, after)
  end.

(** [std::getline(input, str)].  On a stream that is not good nothing is
    read, [str] is left alone and [failbit] is set.  Otherwise [str]
    receives the characters up to the next newline, which is consumed;
    running into the end of the input sets [eofbit], and [failbit] too
    when not a single character was there. *)
Definition getline (input : istream) (str : string) : istream * string :=
  if good input then
    match untilNewline (unread input) with
    | (line, Some rest) => (mkIstream rest false false, line)
    | (line, None) => (mkIstream "" true (String.eqb line ""), line)
    end
  else (mkIstream (unread input) (eofbit input) true, str).

Record GtfFeatureReader : Type := mkGtfFeatureReader {
  input_    : istream;
  nextLine_ : string
}.

Definition startsWithHash (line : string) : bool :=
  match line with
  | String c _ => Ascii.eqb c "#"%char
  | EmptyString => false
  end.

(** How the treatment of one attribute can end: with a key and a value,
    with the [std::out_of_range] of [item.substr(idx)] when there is no
    space in the item ([idx] is then [npos]), or with a loop that the
    fuel cut short. *)
Inductive parsed (A : Type) : Type :=
| Parsed (a : A)
| OutOfRange
| StillLooping.
Arguments Parsed {A} a.
Arguments OutOfRange {A}.
Arguments StillLooping {A}.

Section Gtf.

(** From bpp-core, taken as given: [TextTools::isEmpty],
    [TextTools::isWhiteSpaceCharacter] and
    [TextTools::removeSurroundingWhiteSpaces]. *)
Variable isEmpty : string -> bool.
Variable isWhiteSpaceCharacter : ascii -> bool.
Variable removeSurroundingWhiteSpaces : string -> string.

(** The condition of the loop of [getNextLine_]: the line is passed
    over. *)
Definition passedOver (line : string) : bool :=
  isEmpty line || (String.length line <? 2)%nat || startsWithHash line.

(** The loop of [getNextLine_]; one round per unit of [fuel], [None]
    when the loop was still running at the end of the fuel. *)
Fixpoint getNextLine_loop (fuel : nat) (self : GtfFeatureReader)
  : option GtfFeatureReader :=
  if passedOver (nextLine_ self) then
    match fuel with
    | O => None
    | S fuel' =>
        if eof (input_ self) then
          Some (mkGtfFeatureReader (input_ self) "")
        else
          let (input', line) := getline (input_ self) (nextLine_ self) in
          getNextLine_loop fuel' (mkGtfFeatureReader input' line)
    end
  else Some self.

Definition getNextLine_ (fuel : nat) (self : GtfFeatureReader)
  : option GtfFeatureReader :=
  getNextLine_loop fuel (mkGtfFeatureReader (input_ self) "").

(** *** The attribute column *)

Definition doubleQuote : ascii := ascii_of_nat 34.

(** What the two loops of [nextFeature] erase at the ends of a value. *)
Definition erased (c : ascii) : bool :=
  Ascii.eqb c doubleQuote || isWhiteSpaceCharacter c.

(** The first loop: [value.erase(value.begin())] while the first
    character is a quote or a blank. *)
Fixpoint eraseLeading (value : string) : string :=
  match value with
  | EmptyString => ""
  | String c rest => if erased c then eraseLeading rest else value
  end.

Fixpoint lastChar (s : string) : option ascii :=
  match s with
  | EmptyString => None
  | String c EmptyString => Some c
  | String _ rest => lastChar rest
  end.

(** [value.erase(value.end() - 1)] *)
Fixpoint eraseLast (s : string) : string :=
  match s with
  | EmptyString => ""
  | String c EmptyString => ""
  | String c rest => String c (eraseLast rest)
  end.

(** The second loop, one round per unit of [fuel]. *)
Fixpoint eraseTrailing_loop (fuel : nat) (value : string) : option string :=
  match lastChar value with
  | Some c =>
      if erased c then
        match fuel with
        | O => None
        | S fuel' => eraseTrailing_loop fuel' (eraseLast value)
        end
      else Some value
  | None => Some value
  end.

(** [s.find_first_of(c)] *)
Fixpoint find_first_of (c : ascii) (s : string) : option nat :=
  match s with
  | EmptyString => None
  | String a rest =>
      if Ascii.eqb a c then Some 0%nat
      else match find_first_of c rest with
           | Some n => Some (S n)
           | None => None
           end
  end.

(** The body of the loop over the attributes, for an item that is not
    empty. *)
Definition parseAttribute (item : string) : parsed (string * string) :=
  let item := removeSurroundingWhiteSpaces item in
  match find_first_of " "%char item with
  | None => OutOfRange
  | Some idx =>
      let key := substr 0 idx item in
      let value := eraseLeading (substr_from idx item) in
      match eraseTrailing_loop (String.length value) value with
      | Some value => Parsed (key, value)
      | None => StillLooping
      end
  end.

(** The loop over the attributes; [tokens] are the successive answers of
    the tokenizer. *)
Fixpoint parseAttributes (tokens : list string)
    (attributes : gmap string string) : parsed (gmap string string) :=
  match tokens with
  | [] => Parsed attributes
  | item :: rest =>
      if isEmpty item then parseAttributes rest attributes
      else
        match parseAttribute item with
        | Parsed (key, value) =>
            parseAttributes rest (<[key := value]> attributes)
        | OutOfRange => OutOfRange
        | StillLooping => StillLooping
        end
  end.

End Gtf.

(** The text of a file made of the given lines, each ended by a
    newline. *)
Fixpoint joinLines (lines : list string) : string :=
  match lines with
  | [] => ""
  | l :: rest => l ++ String newline (joinLines rest)
  end.

Definition noNewline (l : string) : Prop := find_first_of newline l = None.

(** Instances of the three functions of bpp-core for the examples:
    blanks are the space, the tabulation, the newline and the carriage
    return. *)
Definition isBlank (c : ascii) : bool :=
  Ascii.eqb c " "%char || Ascii.eqb c (ascii_of_nat 9) ||
  Ascii.eqb c newline || Ascii.eqb c (ascii_of_nat 13).

Fixpoint onlyBlanks (s : string) : bool :=
  match s with
  | EmptyString => true
  | String c rest => isBlank c && onlyBlanks rest
  end.

Fixpoint trimLeadingBlanks (s : string) : string :=
  match s with
  | EmptyString => ""
  | String c rest => if isBlank c then trimLeadingBlanks rest else s
  end.

Fixpoint trimTrailingBlanks (s : string) : string :=
  match s with
  | EmptyString => ""
  | String c rest =>
      match trimTrailingBlanks rest with
      | EmptyString => if isBlank c then "" else String c ""
      | kept => String c kept
      end
  end.

Definition trimBlanks (s : string) : string :=
  trimTrailingBlanks (trimLeadingBlanks s).

(** A stream on which nothing was read yet. *)
Definition freshStream (text : string) : istream := mkIstream text false false.

(** Whether every character of [s] is one that the two loops erase. *)
Fixpoint allErased (isWhiteSpaceCharacter : ascii -> bool) (s : string)
  : bool :=
  match s with
  | EmptyString => true
  | String c rest =>
      erased isWhiteSpaceCharacter c && allErased isWhiteSpaceCharacter rest
  end.

(** Whether the first and the last character of [s], if any, are kept by
    the two loops. *)
Definition endsKept (isWhiteSpaceCharacter : ascii -> bool) (s : string)
  : Prop :=
  match s with
  | String c _ => erased isWhiteSpaceCharacter c = false
  | EmptyString => True
  end /\
  match lastChar s with
  | Some c => erased isWhiteSpaceCharacter c = false
  | None => True
  end.

(** A text between double quotes. *)
Definition quoted (s : string) : string :=
  String doubleQuote (s ++ String doubleQuote "").

(** Tokens none of which sets [key]. *)
Definition silentOn (isEmpty : string -> bool)
    (isWhiteSpaceCharacter : ascii -> bool)
    (removeSurroundingWhiteSpaces : string -> string)
    (key : string) (tokens : list string) : Prop :=
  forall (t k v : string),
    t ∈ tokens -> isEmpty t = false ->
    parseAttribute isWhiteSpaceCharacter removeSurroundingWhiteSpaces t
    = Parsed (k, v) ->
    k <> key.

(** The attribute column of the examples, cut at the semicolons. *)
Definition sampleAttributes : list string :=
  [ "gene_id " ++ quoted "G1";
    " transcript_id " ++ quoted "T 1";
    "  ";
    " gene_id " ++ quoted "G2" ].

(** * Properties *)

(** ** Strings *)

Lemma append_nil (t : string) : "" ++ t = t.
Proof. reflexivity. Qed.

Lemma append_cons (a : ascii) (s t : string) :
  String a s ++ t = String a (s ++ t).
Proof. reflexivity. Qed.

Lemma append_assoc (s t u : string) : (s ++ t) ++ u = s ++ (t ++ u).
Proof.
  induction s as [| a s IH].
  - now rewrite !append_nil.
  - rewrite !append_cons. now rewrite IH.
Qed.

Lemma append_nil_r (s : string) : s ++ "" = s.
Proof.
  induction s as [| a s IH]; [reflexivity |].
  rewrite append_cons. now rewrite IH.
Qed.

Lemma find_dot_cons (a : ascii) (s : string) :
  find "." (String a s) =
  if Ascii.eqb a "."%char then Some 0%nat
  else match find "." s with Some n => Some (S n) | None => None end.
Proof.
  unfold find. cbn [String.index String.prefix].
  destruct (ascii_dec "." a) as [<- | Hne].
  - now destruct s.
  - destruct (Ascii.eqb_spec a ".") as [-> | _]; [congruence | reflexivity].
Qed.

Lemma find_dot_none (s : string) :
  hasSeparator s = false -> find "." s = None.
Proof.
  induction s as [| a s IH]; intros H.
  - reflexivity.
  - rewrite find_dot_cons. simpl in H.
    destruct (Ascii.eqb a "."); [discriminate |].
    now rewrite IH.
Qed.

Lemma find_dot_first (sp chr : string) :
  hasSeparator sp = false ->
  find "." (sp ++ String "." chr) = Some (String.length sp).
Proof.
  induction sp as [| a sp IH]; intros H;
    cbn [hasSeparator String.length] in *.
  - now rewrite append_nil, find_dot_cons.
  - rewrite append_cons, find_dot_cons.
    destruct (Ascii.eqb a "."); [discriminate |].
    now rewrite IH.
Qed.

Lemma substring_whole (s : string) :
  String.substring 0 (String.length s) s = s.
Proof. induction s as [| a s IH]; simpl; [reflexivity | now rewrite IH]. Qed.

Lemma substr_prefix (sp rest : string) :
  substr 0 (String.length sp) (sp ++ rest) = sp.
Proof.
  unfold substr. induction sp as [| a sp IH].
  - rewrite append_nil. now destruct rest.
  - rewrite append_cons. cbn [String.length String.substring]. now rewrite IH.
Qed.

Lemma substr_from_suffix (sp chr : string) :
  substr_from (String.length sp + 1) (sp ++ String "." chr) = chr.
Proof.
  unfold substr_from. induction sp as [| a sp IH].
  - rewrite append_nil. cbn [String.length Nat.add Nat.sub String.substring].
    rewrite Nat.sub_0_r. apply substring_whole.
  - rewrite append_cons.
    cbn [String.length Nat.add Nat.sub String.substring]. exact IH.
Qed.

(** ** MafSequence *)

Lemma constructor_body_split (sp chr : string) (s : MafSequence) :
  hasSeparator sp = false ->
  let s' := constructor_body (sp ++ String "." chr) s in
  getSpecies s' = sp /\ getChromosome s' = chr.
Proof.
  intros H. unfold constructor_body.
  rewrite (find_dot_first sp chr H). simpl.
  split; [apply substr_prefix | apply substr_from_suffix].
Qed.

Lemma constructor_body_no_separator (name : string) (s : MafSequence) :
  hasSeparator name = false ->
  let s' := constructor_body name s in
  getSpecies s' = species_ s /\ getChromosome s' = chromosome_ s.
Proof.
  intros H. unfold constructor_body.
  now rewrite (find_dot_none name H).
Qed.

(** C7: the constructors split the name at the first dot; the species is
    what precedes it and the chromosome all that follows it.  A name
    without a dot leaves both empty. *)
Theorem C7_name_split_on_first_separator (name sequence : string)
    (begin : Z) (strand : ascii) (srcSize : Z) :
  (forall sp chr : string,
      hasSeparator sp = false ->
      name = sp ++ String "." chr ->
      getSpecies (MafSequence_named name sequence) = sp /\
      getChromosome (MafSequence_named name sequence) = chr /\
      getSpecies (MafSequence_located name sequence begin strand srcSize) = sp /\
      getChromosome (MafSequence_located name sequence begin strand srcSize)
        = chr) /\
  (hasSeparator name = false ->
      getSpecies (MafSequence_named name sequence) = "" /\
      getChromosome (MafSequence_named name sequence) = "" /\
      getSpecies (MafSequence_located name sequence begin strand srcSize) = "" /\
      getChromosome (MafSequence_located name sequence begin strand srcSize)
        = "").
Proof.
  split.
  - intros sp chr Hsp ->. unfold MafSequence_named, MafSequence_located.
    repeat split; now apply constructor_body_split.
  - intros H. unfold MafSequence_named, MafSequence_located.
    repeat split; now apply constructor_body_no_separator.
Qed.

Lemma C7_name_split_witness :
  (getSpecies (MafSequence_named "human.chr1.random" "AC-GT") = "human" /\
   getChromosome (MafSequence_named "human.chr1.random" "AC-GT")
     = "chr1.random" /\
   getSpecies (MafSequence_located "human.chr1.random" "AC-GT" 100 "+" 5000)
     = "human" /\
   getChromosome (MafSequence_located "human.chr1.random" "AC-GT" 100 "+" 5000)
     = "chr1.random") /\
  (getSpecies (MafSequence_named "human" "AC-GT") = "" /\
   getChromosome (MafSequence_named "human" "AC-GT") = "" /\
   getSpecies (MafSequence_located "human" "AC-GT" 100 "+" 5000) = "" /\
   getChromosome (MafSequence_located "human" "AC-GT" 100 "+" 5000) = "").
Proof.
  split.
  - apply (proj1 (C7_name_split_on_first_separator
                    "human.chr1.random" "AC-GT" 100 "+" 5000)
             "human" "chr1.random"); reflexivity.
  - apply (proj2 (C7_name_split_on_first_separator
                    "human" "AC-GT" 100 "+" 5000)); reflexivity.
Defined.

(** *** Coordinates *)

(** C4: without coordinates [start] and [stop] throw an [Exception]; with
    coordinates they return a value. *)
Theorem C4_start_stop_typed_failure (s : MafSequence) :
  (hasCoordinates s = false ->
     start s = Throw (mkException
       "MafSequence::start(). Sequence does not have coordinates.") /\
     stop s = Throw (mkException
       "MafSequence::stop(). Sequence does not have coordinates.")) /\
  (hasCoordinates s = true ->
     returnsNormally (start s) /\ returnsNormally (stop s)).
Proof.
  unfold hasCoordinates, start, stop.
  split; intros ->; split; simpl; trivial.
Qed.

Lemma C4_start_stop_witness :
  (throws (start (MafSequence_named "human.chr1" "AC-GT")) /\
   throws (stop (MafSequence_named "human.chr1" "AC-GT"))) /\
  (returnsNormally (start (MafSequence_located "human.chr1" "AC-GT" 100 "+" 5000)) /\
   returnsNormally (stop (MafSequence_located "human.chr1" "AC-GT" 100 "+" 5000))).
Proof.
  split.
  - destruct (proj1 (C4_start_stop_typed_failure
                       (MafSequence_named "human.chr1" "AC-GT")))
      as [-> ->]; [reflexivity | split; exact I].
  - apply (proj2 (C4_start_stop_typed_failure
                    (MafSequence_located "human.chr1" "AC-GT" 100 "+" 5000))).
    reflexivity.
Defined.

Lemma wrap32_small (z : Z) : 0 <= z < UINT_MODULUS -> wrap32 z = z.
Proof. intros H. unfold wrap32. now apply Z.mod_small. Qed.

(** C5: with coordinates, [stop] is [start + getGenomicSize - 1] in
    [unsigned int] arithmetic, and exactly that integer whenever it is
    representable.  Nothing is stored for it: after the start is set
    anew, or a symbol is appended, [stop] follows the new begin and the
    new genomic size. *)
Theorem C5_stop_computed_from_start_and_size (s : MafSequence) :
  hasCoordinates s = true ->
  exists b : Z,
    start s = Return b /\
    stop s = Return (wrap32 (b + getGenomicSize s - 1)) /\
    (1 <= b + getGenomicSize s <= UINT_MODULUS ->
       stop s = Return (b + getGenomicSize s - 1)) /\
    (forall b' : Z,
       stop (setStart b' s) = Return (wrap32 (b' + getGenomicSize s - 1))) /\
    (forall c : Symbol,
       stop (addElement c s)
       = Return (wrap32 (b + getGenomicSize (addElement c s) - 1))).
Proof.
  unfold hasCoordinates, start, stop, getGenomicSize. intros Hc.
  exists (begin_ s). rewrite Hc. repeat split.
  - intros Hr. f_equal. apply wrap32_small. lia.
  - intros c.
    change (hasCoordinates_ (addElement c s)) with (hasCoordinates_ s).
    change (begin_ (addElement c s)) with (begin_ s).
    now rewrite Hc.
Qed.

Lemma C5_stop_witness :
  exists b : Z,
    start (MafSequence_located "human.chr1" "AC-GT" 100 "+" 5000) = Return b /\
    stop (MafSequence_located "human.chr1" "AC-GT" 100 "+" 5000)
      = Return (b + 4 - 1).
Proof.
  destruct (C5_stop_computed_from_start_and_size
              (MafSequence_located "human.chr1" "AC-GT" 100 "+" 5000)
              eq_refl) as (b & Hb & _ & Hexact & _).
  exists b. split; [exact Hb |].
  injection Hb as <-. apply Hexact. vm_compute. split; discriminate.
Defined.

(** C10: the constructor taking coordinates sets [hasCoordinates] exactly
    when [begin] is positive; with [begin = 0] the sequence has no
    coordinates and [start] throws. *)
Theorem C10_located_constructor_needs_positive_begin
    (name sequence : string) (begin : Z) (strand : ascii) (srcSize : Z) :
  (hasCoordinates (MafSequence_located name sequence begin strand srcSize)
     = true <-> 0 < begin) /\
  hasCoordinates (MafSequence_located name sequence 0 strand srcSize) = false /\
  start (MafSequence_located name sequence 0 strand srcSize)
    = Throw (mkException
        "MafSequence::start(). Sequence does not have coordinates.").
Proof.
  assert (Hflag : forall b,
    hasCoordinates_ (MafSequence_located name sequence b strand srcSize)
    = (0 <? b)).
  { intros b. unfold MafSequence_located, constructor_body.
    now destruct (find "." name). }
  unfold hasCoordinates, start. rewrite !Hflag. repeat split.
  - apply Z.ltb_lt.
  - apply Z.ltb_lt.
Qed.

Lemma C10_located_constructor_witness :
  hasCoordinates (MafSequence_located "human.chr1" "AC-GT" 100 "+" 5000) = true.
Proof.
  apply (proj1 (C10_located_constructor_needs_positive_begin
                  "human.chr1" "AC-GT" 100 "+" 5000)).
  reflexivity.
Defined.

(** *** The genomic size cache *)

Lemma nonGapCount_le_length (content : list Symbol) :
  (nonGapCount content <= length content)%nat.
Proof.
  induction content as [| c rest IH]; simpl; [lia |].
  destruct (isGap c); lia.
Qed.

Lemma getNumberOfSites_exact (content : list Symbol) :
  Z.of_nat (length content) < UINT_MODULUS ->
  SequenceTools_getNumberOfSites content = Z.of_nat (nonGapCount content).
Proof.
  intros H. unfold SequenceTools_getNumberOfSites. apply wrap32_small.
  pose proof (nonGapCount_le_length content). lia.
Qed.

(** The three hooks that recompute keep the cache fresh. *)
Lemma setContent_fresh (content : list Symbol) (s : MafSequence) :
  Z.of_nat (length content) < UINT_MODULUS ->
  genomicSizeFresh (setContent content s).
Proof. intros H. unfold genomicSizeFresh. simpl. now apply getNumberOfSites_exact. Qed.

Lemma addElement_fresh (c : Symbol) (s : MafSequence) :
  Z.of_nat (length (content_ s ++ [c])) < UINT_MODULUS ->
  genomicSizeFresh (addElement c s).
Proof. intros H. unfold genomicSizeFresh. simpl. now apply getNumberOfSites_exact. Qed.

Lemma addElementAt_fresh (pos : nat) (c : Symbol) (s s' : MafSequence) :
  Z.of_nat (length (content_ s)) + 1 < UINT_MODULUS ->
  addElementAt pos c s = Return s' ->
  genomicSizeFresh s'.
Proof.
  intros H. unfold addElementAt. case_decide; [| discriminate].
  intros [= <-]. unfold genomicSizeFresh. simpl.
  apply getNumberOfSites_exact.
  unfold beforeSequenceInserted.
  rewrite length_app, length_take, length_cons, length_drop. lia.
Qed.

Lemma deleteElement_fresh (pos : nat) (s s' : MafSequence) :
  Z.of_nat (length (content_ s)) < UINT_MODULUS ->
  deleteElement pos s = Return s' ->
  genomicSizeFresh s'.
Proof.
  intros H. unfold deleteElement. case_decide; [| discriminate].
  intros [= <-]. unfold genomicSizeFresh. simpl.
  apply getNumberOfSites_exact.
  unfold beforeSequenceDeleted.
  rewrite length_delete by (apply lookup_lt_is_Some; assumption). lia.
Qed.

(** A substitution leaves the cache as it was. *)
Lemma setElement_keeps_size (pos : nat) (c : Symbol) (s s' : MafSequence) :
  setElement pos c s = Return s' ->
  getGenomicSize s' = getGenomicSize s /\
  content_ s' = <[pos := c]> (content_ s).
Proof.
  unfold setElement. case_decide; [| discriminate].
  intros [= <-]. split; reflexivity.
Qed.

(** C1: the cache after a substitution.  On the one-symbol sequence "A",
    whose cache is fresh, overwriting position 0 with a gap succeeds and
    leaves a content without any non-gap symbol, while [getGenomicSize]
    still answers 1. *)
Theorem C1_substitution_leaves_genomic_size_stale :
  let s := MafSequence_named "human.chr1" "A" in
  genomicSizeFresh s /\
  exists s' : MafSequence,
    setElement 0 "-"%char s = Return s' /\
    content_ s' = ["-"%char] /\
    nonGapCount (content_ s') = 0%nat /\
    getGenomicSize s' = 1 /\
    ~ genomicSizeFresh s'.
Proof.
  split; [reflexivity |].
  eexists. split; [reflexivity |].
  repeat split. unfold genomicSizeFresh. simpl. discriminate.
Qed.

(** ** BlockSizeMafIterator *)

Section BlockSizeProperties.

Context {World : Type}.

Lemma logDiscarded_fields (b : MafBlock)
    (f : AbstractFilterMafIterator World) :
  iterator_ (logDiscarded b f) = iterator_ f /\
  verbose_ (logDiscarded b f) = verbose_ f /\
  logstream_ (logDiscarded b f) =
    match logstream_ f with
    | Some out => Some (out ++ discardMessage b)
    | None => None
    end.
Proof.
  unfold logDiscarded. destruct (logstream_ f) as [out |] eqn:Hlog; simpl.
  - repeat split. unfold endLine, put, putUInt, discardMessage.
    now rewrite !append_assoc.
  - repeat split. exact Hlog.
Qed.

(** Whatever the upstream, a call that returns has deleted only
    undersized blocks and returns a block of at least the minimum
    size, or the null pointer. *)
Lemma nextBlock_sound (fuel : nat) :
  forall (st st' : BlockSizeState World) (r : option MafBlock),
    BlockSizeMafIterator_nextBlock fuel st = Some (r, st') ->
    minSize_ (bs_self st') = minSize_ (bs_self st) /\
    (exists discarded : list MafBlock,
        bs_deleted st' = (bs_deleted st ++ discarded)%list /\
        Forall (undersized (minSize_ (bs_self st))) discarded) /\
    match r with
    | Some b => minSize_ (bs_self st) <= getNumberOfSites b
    | None => True
    end.
Proof.
  induction fuel as [| fuel IH]; intros st st' r; simpl; [discriminate |].
  destruct (iterator_ (bs_base (bs_self st)) (bs_world st)) as [[b |] w].
  - destruct (getNumberOfSites b <? minSize_ (bs_self st)) eqn:Htest.
    + intros Hrec. apply IH in Hrec. simpl in Hrec.
      destruct Hrec as (Hmin & (discarded & Hdel & Hall) & Hr).
      split; [exact Hmin |]. split; [| exact Hr].
      exists (b :: discarded). split.
      * rewrite Hdel. now rewrite <- app_assoc.
      * constructor; [| exact Hall]. now apply Z.ltb_lt.
    + intros [= <- <-]. simpl. split; [reflexivity |]. split.
      * exists []. split; [now rewrite app_nil_r | constructor].
      * now apply Z.ltb_ge.
  - intros [= <- <-]. simpl. split; [reflexivity |]. split; [| exact I].
    exists []. split; [now rewrite app_nil_r | constructor].
Qed.

(** A call that returns leaves the threshold, the upstream pointer and
    the verbose flag of the filter as they were. *)
Lemma nextBlock_frame (fuel : nat) :
  forall (st st' : BlockSizeState World) (r : option MafBlock),
    BlockSizeMafIterator_nextBlock fuel st = Some (r, st') ->
    minSize_ (bs_self st') = minSize_ (bs_self st) /\
    iterator_ (bs_base (bs_self st')) = iterator_ (bs_base (bs_self st)) /\
    verbose_ (bs_base (bs_self st')) = verbose_ (bs_base (bs_self st)).
Proof.
  induction fuel as [| fuel IH]; intros st st' r; simpl; [discriminate |].
  destruct (iterator_ (bs_base (bs_self st)) (bs_world st)) as [[b |] w].
  - destruct (getNumberOfSites b <? minSize_ (bs_self st)).
    + intros Hrec. apply IH in Hrec. simpl in Hrec.
      destruct (logDiscarded_fields b (bs_base (bs_self st)))
        as (Hit & Hverb & _).
      destruct Hrec as (Hmin & Hit' & Hverb').
      split_and!; congruence.
    + intros [= <- <-]. now split_and!.
  - intros [= <- <-]. now split_and!.
Qed.

(** Any number of calls, each on the state left by the one before. *)
Lemma calls_sound (n : nat) :
  forall (fuel : nat) (st final : BlockSizeState World)
         (rs : list (option MafBlock)),
    BlockSizeMafIterator_calls n fuel st = Some (rs, final) ->
    length rs = n /\
    Forall (qualifiesOrEnds (minSize_ (bs_self st))) rs /\
    (exists discarded : list MafBlock,
        bs_deleted final = (bs_deleted st ++ discarded)%list /\
        Forall (undersized (minSize_ (bs_self st))) discarded) /\
    minSize_ (bs_self final) = minSize_ (bs_self st) /\
    iterator_ (bs_base (bs_self final)) = iterator_ (bs_base (bs_self st)) /\
    verbose_ (bs_base (bs_self final)) = verbose_ (bs_base (bs_self st)).
Proof.
  induction n as [| n IH]; intros fuel st final rs;
    cbn [BlockSizeMafIterator_calls].
  - intros [= <- <-]. split_and!; try reflexivity; [constructor |].
    exists []. split; [now rewrite app_nil_r | constructor].
  - destruct (BlockSizeMafIterator_nextBlock fuel st) as [[r st'] |] eqn:Hcall;
      [| discriminate].
    destruct (BlockSizeMafIterator_calls n fuel st') as [[rs' final'] |]
      eqn:Hrest; [| discriminate].
    intros [= <- <-].
    destruct (nextBlock_sound fuel st st' r Hcall)
      as (_ & (d1 & Hd1 & Hall1) & Hr).
    destruct (nextBlock_frame fuel st st' r Hcall) as (Hmin & Hit & Hverb).
    destruct (IH fuel st' final' rs' Hrest)
      as (Hlen & Hrs & (d2 & Hd2 & Hall2) & Hmin' & Hit' & Hverb').
    rewrite Hmin in Hrs, Hall2.
    split_and!; try congruence.
    + cbn [length]. now rewrite Hlen.
    + constructor; [exact Hr | exact Hrs].
    + exists (d1 ++ d2)%list. split.
      * now rewrite Hd2, Hd1, <- app_assoc.
      * apply Forall_app. now split.
Qed.

End BlockSizeProperties.

(** On a finite upstream the loop ends within one round per block and one
    more, and the call is determined by the undersized blocks at the head
    of the sequence. *)
Lemma nextBlock_listSource (blocks : list MafBlock) :
  forall (self : BlockSizeMafIterator (list MafBlock))
         (deleted : list MafBlock) (fuel : nat),
    iterator_ (bs_base self) = listSource ->
    (length blocks < fuel)%nat ->
    exists (discarded : list MafBlock) (r : option MafBlock)
           (rest : list MafBlock) (self' : BlockSizeMafIterator (list MafBlock)),
      BlockSizeMafIterator_nextBlock fuel (mkBlockSizeState self blocks deleted)
        = Some (r, mkBlockSizeState self' rest (deleted ++ discarded)) /\
      Forall (undersized (minSize_ self)) discarded /\
      match r with
      | Some b =>
          blocks = (discarded ++ b :: rest)%list /\
          minSize_ self <= getNumberOfSites b
      | None => blocks = discarded /\ rest = []
      end /\
      minSize_ self' = minSize_ self /\
      iterator_ (bs_base self') = listSource /\
      verbose_ (bs_base self') = verbose_ (bs_base self) /\
      logstream_ (bs_base self') =
        match logstream_ (bs_base self) with
        | Some out => Some (out ++ discardLog discarded)
        | None => None
        end.
Proof.
  induction blocks as [| b blocks IH]; intros self deleted fuel Hsrc Hfuel.
  - destruct fuel as [| fuel]; [simpl in Hfuel; lia |].
    exists [], None, [], self. simpl. rewrite Hsrc. simpl.
    rewrite app_nil_r.
    split_and!; try reflexivity; try assumption; [constructor |].
    destruct (logstream_ (bs_base self)); [now rewrite append_nil_r | reflexivity].
  - destruct fuel as [| fuel]; [simpl in Hfuel; lia |].
    simpl. rewrite Hsrc. simpl.
    destruct (getNumberOfSites b <? minSize_ self) eqn:Htest.
    + destruct (logDiscarded_fields b (bs_base self)) as (Hit & Hv & Hlog).
      destruct (IH (mkBlockSizeMafIterator (logDiscarded b (bs_base self))
                      (minSize_ self))
                  (deleted ++ [b])%list fuel)
        as (discarded & r & rest & self' & Hrun & Hall & Hr & Hmin & Hsrc'
            & Hverb & Hlog').
      { simpl. now rewrite Hit. }
      { simpl in Hfuel. lia. }
      exists (b :: discarded), r, rest, self'.
      rewrite Hrun. simpl in *. rewrite <- app_assoc. simpl.
      split_and!; try assumption; try reflexivity.
      * constructor; [now apply Z.ltb_lt | exact Hall].
      * destruct r as [b' |].
        -- destruct Hr as [-> Hge]. now split.
        -- destruct Hr as [-> ->]. now split.
      * congruence.
      * rewrite Hlog', Hlog.
        destruct (logstream_ (bs_base self)); [| reflexivity].
        now rewrite append_assoc.
    + exists [], (Some b), blocks, self. rewrite app_nil_r. simpl.
      split_and!; try reflexivity; try assumption;
        [constructor | now apply Z.ltb_ge |].
      destruct (logstream_ (bs_base self)); [now rewrite append_nil_r | reflexivity].
Qed.

(** C2: a call of [BlockSizeMafIterator::nextBlock] that returns has
    deleted only blocks with fewer sites than the minimum and returns a
    block with at least that many, or the null pointer, and it leaves the
    threshold, the upstream pointer and the verbose flag of the filter
    as they were; so over any number of successive calls every block
    returned has at least the minimum of sites and every block deleted
    has fewer.  Over a finite sequence of upstream blocks a call always
    returns, having deleted exactly the undersized blocks at the head of
    the sequence, and it returns the first block that qualifies, or the
    null pointer once the sequence is used up; the filter it leaves has
    the same threshold and the same upstream. *)
Theorem C2_block_size_filter :
  (forall (World : Type) (fuel : nat) (st st' : BlockSizeState World)
          (r : option MafBlock),
      BlockSizeMafIterator_nextBlock fuel st = Some (r, st') ->
      ((exists discarded : list MafBlock,
           bs_deleted st' = (bs_deleted st ++ discarded)%list /\
           Forall (undersized (minSize_ (bs_self st))) discarded) /\
       match r with
       | Some b => minSize_ (bs_self st) <= getNumberOfSites b
       | None => True
       end) /\
      minSize_ (bs_self st') = minSize_ (bs_self st) /\
      iterator_ (bs_base (bs_self st')) = iterator_ (bs_base (bs_self st)) /\
      verbose_ (bs_base (bs_self st')) = verbose_ (bs_base (bs_self st))) /\
  (forall (World : Type) (n fuel : nat) (st final : BlockSizeState World)
          (rs : list (option MafBlock)),
      BlockSizeMafIterator_calls n fuel st = Some (rs, final) ->
      length rs = n /\
      Forall (qualifiesOrEnds (minSize_ (bs_self st))) rs /\
      (exists discarded : list MafBlock,
          bs_deleted final = (bs_deleted st ++ discarded)%list /\
          Forall (undersized (minSize_ (bs_self st))) discarded) /\
      minSize_ (bs_self final) = minSize_ (bs_self st) /\
      iterator_ (bs_base (bs_self final)) = iterator_ (bs_base (bs_self st))) /\
  (forall (blocks : list MafBlock)
          (self : BlockSizeMafIterator (list MafBlock))
          (deleted : list MafBlock),
      iterator_ (bs_base self) = listSource ->
      exists (discarded : list MafBlock) (r : option MafBlock)
             (rest : list MafBlock)
             (self' : BlockSizeMafIterator (list MafBlock)),
        (BlockSizeMafIterator_nextBlock (S (length blocks))
           (mkBlockSizeState self blocks deleted)
           = Some (r, mkBlockSizeState self' rest (deleted ++ discarded)) /\
         Forall (undersized (minSize_ self)) discarded /\
         match r with
         | Some b =>
             blocks = (discarded ++ b :: rest)%list /\
             minSize_ self <= getNumberOfSites b
         | None => blocks = discarded /\ rest = []
         end) /\
        minSize_ self' = minSize_ self /\
        iterator_ (bs_base self') = listSource /\
        verbose_ (bs_base self') = verbose_ (bs_base self)).
Proof.
  split_and!.
  - intros World fuel st st' r Hrun.
    destruct (nextBlock_sound fuel st st' r Hrun) as (_ & Hdel & Hr).
    destruct (nextBlock_frame fuel st st' r Hrun) as (Hmin & Hit & Hverb).
    now split_and!.
  - intros World n fuel st final rs Hrun.
    destruct (calls_sound n fuel st final rs Hrun)
      as (Hlen & Hrs & Hdel & Hmin & Hit & _).
    now split_and!.
  - intros blocks self deleted Hsrc.
    destruct (nextBlock_listSource blocks self deleted (S (length blocks)) Hsrc)
      as (discarded & r & rest & self' & Hrun & Hall & Hr & Hmin & Hsrc'
          & Hverb & _); [lia |].
    exists discarded, r, rest, self'. now split_and!.
Qed.

Lemma C2_block_size_filter_witness :
  let self := BlockSizeMafIterator_new None listSource 5 in
  (exists discarded : list MafBlock,
      (discarded = [singletonBlock "human.chr1" "AC-"]) /\
      Forall (undersized 5) discarded) /\
  Forall (qualifiesOrEnds 5)
    [Some (singletonBlock "human.chr1" "ACGTACGT"); None; None] /\
  (exists (discarded : list MafBlock) (r : option MafBlock)
          (rest : list MafBlock)
          (self' : BlockSizeMafIterator (list MafBlock)),
      (BlockSizeMafIterator_nextBlock 4 (mkBlockSizeState self threeBlocks [])
         = Some (r, mkBlockSizeState self' rest ([] ++ discarded)) /\
       Forall (undersized 5) discarded /\
       match r with
       | Some b =>
           threeBlocks = (discarded ++ b :: rest)%list /\
           5 <= getNumberOfSites b
       | None => threeBlocks = discarded /\ rest = []
       end) /\
      minSize_ self' = 5 /\
      iterator_ (bs_base self') = listSource /\
      verbose_ (bs_base self') = true).
Proof.
  intros self. split_and!.
  - destruct (proj1 C2_block_size_filter (list MafBlock) 4%nat
                (mkBlockSizeState self threeBlocks [])
                (mkBlockSizeState self [singletonBlock "human.chr2" "A"]
                   [singletonBlock "human.chr1" "AC-"])
                (Some (singletonBlock "human.chr1" "ACGTACGT")) eq_refl)
      as [[(discarded & Hdel & Hall) _] _].
    exists discarded. split; [| exact Hall].
    simpl in Hdel. now rewrite <- Hdel.
  - exact (proj1 (proj2 (proj1 (proj2 C2_block_size_filter)
             (list MafBlock) 3%nat 4%nat
             (mkBlockSizeState self threeBlocks [])
             (mkBlockSizeState self []
                [singletonBlock "human.chr1" "AC-";
                 singletonBlock "human.chr2" "A"])
             [Some (singletonBlock "human.chr1" "ACGTACGT"); None; None]
             eq_refl))).
  - exact (proj2 (proj2 C2_block_size_filter) threeBlocks self [] eq_refl).
Defined.

(** C8: the line for a discarded block is written exactly when the log
    stream is present, whatever the verbose flag, which the call neither
    reads nor changes: after the call the stream holds one more line per
    deleted block, in order.  With a null log stream the call returns all
    the same and the stream stays null. *)
Theorem C8_discard_message_follows_log_stream
    (blocks : list MafBlock) (self : BlockSizeMafIterator (list MafBlock))
    (deleted : list MafBlock) :
  iterator_ (bs_base self) = listSource ->
  exists (discarded : list MafBlock) (r : option MafBlock)
         (st' : BlockSizeState (list MafBlock)),
    BlockSizeMafIterator_nextBlock (S (length blocks))
      (mkBlockSizeState self blocks deleted) = Some (r, st') /\
    bs_deleted st' = (deleted ++ discarded)%list /\
    Forall (undersized (minSize_ self)) discarded /\
    verbose_ (bs_base (bs_self st')) = verbose_ (bs_base self) /\
    logstream_ (bs_base (bs_self st')) =
      match logstream_ (bs_base self) with
      | Some out => Some (out ++ discardLog discarded)
      | None => None
      end.
Proof.
  intros Hsrc.
  destruct (nextBlock_listSource blocks self deleted (S (length blocks)) Hsrc)
    as (discarded & r & rest & self' & Hrun & Hall & _ & _ & _ & Hverb & Hlog);
    [lia |].
  exists discarded, r, (mkBlockSizeState self' rest (deleted ++ discarded)).
  now split_and!.
Qed.

Lemma C8_discard_message_witness :
  exists (discarded : list MafBlock) (r : option MafBlock)
         (st' : BlockSizeState (list MafBlock)),
    BlockSizeMafIterator_nextBlock 4
      (mkBlockSizeState (BlockSizeMafIterator_new (Some "") listSource 5)
         threeBlocks []) = Some (r, st') /\
    bs_deleted st' = discarded /\
    Forall (undersized 5) discarded /\
    verbose_ (bs_base (bs_self st')) = true /\
    logstream_ (bs_base (bs_self st')) = Some ("" ++ discardLog discarded).
Proof.
  exact (C8_discard_message_follows_log_stream threeBlocks
           (BlockSizeMafIterator_new (Some "") listSource 5) [] eq_refl).
Defined.

(** The verbose flag does not silence the filter: with the flag off and
    a log stream present, discarding a block of three sites writes its
    line. *)
Lemma C8_message_emitted_with_verbose_off :
  let self :=
    mkBlockSizeMafIterator
      (setVerbose false (AbstractFilterMafIterator_new (Some "") listSource)) 5 in
  let small := singletonBlock "human.chr1" "AC-" in
  verbose (bs_base self) = false /\
  exists st' : BlockSizeState (list MafBlock),
    BlockSizeMafIterator_nextBlock 2 (mkBlockSizeState self [small] [])
      = Some (None, st') /\
    bs_deleted st' = [small] /\
    verbose (bs_base (bs_self st')) = false /\
    logstream_ (bs_base (bs_self st'))
      = Some ("BLOCK SIZE FILTER: block with size 3 was discarded." ++ endl) /\
    logstream_ (bs_base (bs_self st')) <> logstream_ (bs_base self).
Proof.
  split; [reflexivity |].
  eexists. split; [reflexivity |].
  split_and!; try reflexivity. discriminate.
Qed.

(** ** MafIteratorSynchronizer *)

(** C3: one call of the synchronizer calls the primary once on the
    incoming state, then the secondary once on the state the primary
    left; it deletes the block of the secondary, if any, and returns the
    result of the primary.  The journal of calls grows by "primary,
    secondary".  When the primary returns the null pointer the secondary
    is called all the same and the null pointer is returned. *)
Theorem C3_synchronizer_pulls_primary_then_secondary {World : Type}
    (self : MafIteratorSynchronizer World) (w : World)
    (deleted : list MafBlock) :
  let primary := iterator_ (sy_base self) in
  let secondary := secondaryIterator_ self in
  let result := MafIteratorSynchronizer_nextBlock self w deleted in
  result =
    (fst (primary w),
     (snd (secondary (snd (primary w))),
      (deleted ++ option_list (fst (secondary (snd (primary w)))))%list)) /\
  (forall journal : list Pull,
      snd (fst (snd (MafIteratorSynchronizer_nextBlock
                       (journalledSynchronizer primary secondary)
                       (w, journal) deleted)))
      = (journal ++ [PullPrimary; PullSecondary])%list) /\
  (fst (primary w) = None ->
     fst result = None /\
     fst (snd result) = snd (secondary (snd (primary w)))).
Proof.
  intros primary secondary result. subst primary secondary result.
  unfold MafIteratorSynchronizer_nextBlock. split_and!.
  - destruct (iterator_ (sy_base self) w) as [block w1]. simpl.
    destruct (secondaryIterator_ self w1) as [[sb |] w2]; simpl.
    + reflexivity.
    + now rewrite app_nil_r.
  - intros journal. unfold journalledSynchronizer, journalled. simpl.
    destruct (iterator_ (sy_base self) w) as [block w1].
    destruct (secondaryIterator_ self w1) as [[sb |] w2]; simpl;
      now rewrite <- app_assoc.
  - destruct (iterator_ (sy_base self) w) as [block w1]. simpl. intros ->.
    destruct (secondaryIterator_ self w1) as [[sb |] w2]; simpl; now split.
Qed.

Lemma C3_synchronizer_witness :
  let self :=
    MafIteratorSynchronizer_new None primaryOfPair secondaryOfPair in
  let w := ([] : list MafBlock, threeBlocks) in
  fst (MafIteratorSynchronizer_nextBlock self w []) = None /\
  fst (snd (MafIteratorSynchronizer_nextBlock self w []))
  = ([], [singletonBlock "human.chr1" "ACGTACGT";
          singletonBlock "human.chr2" "A"]).
Proof.
  intros self w.
  exact (proj2 (proj2 (C3_synchronizer_pulls_primary_then_secondary self w []))
           eq_refl).
Defined.

(** ** OutputMafIterator *)

Section OutputProperties.

Variable writeHeader : bool -> ostream -> ostream.
Variable writeBlock : bool -> ostream -> MafBlock -> ostream.

Lemma OutputMafIterator_run_listSource (blocks : list MafBlock) :
  forall (base : AbstractFilterMafIterator (list MafBlock))
         (o : ostream) (mask : bool),
    iterator_ base = listSource ->
    OutputMafIterator_run writeBlock (length blocks)
      (mkOutputMafIterator base (Some o) mask) blocks
    = (map Some blocks,
       (mkOutputMafIterator base
          (Some (fold_left (writeBlock mask) blocks o)) mask, [])).
Proof.
  induction blocks as [| b blocks IH]; intros base o mask Hsrc.
  - reflexivity.
  - cbn [length OutputMafIterator_run].
    unfold OutputMafIterator_nextBlock. cbn [om_base output_ mask_].
    rewrite Hsrc. cbn [listSource].
    rewrite (IH base (writeBlock mask o b) mask Hsrc). reflexivity.
Qed.

End OutputProperties.

Section OutputRuns.

Variable writeBlock : bool -> ostream -> MafBlock -> ostream.

Lemma OutputMafIterator_run_exhausted (k : nat) :
  forall self : OutputMafIterator (list MafBlock),
    iterator_ (om_base self) = listSource ->
    OutputMafIterator_run writeBlock k self []
    = (replicate k None, (self, [])).
Proof.
  induction k as [| k IH]; intros self Hsrc; [reflexivity |].
  cbn [OutputMafIterator_run replicate].
  unfold OutputMafIterator_nextBlock. rewrite Hsrc. cbn [listSource].
  destruct (output_ self); now rewrite IH.
Qed.

Lemma OutputMafIterator_run_through (blocks : list MafBlock) (k : nat) :
  forall (base : AbstractFilterMafIterator (list MafBlock))
         (sink : option ostream) (mask : bool),
    iterator_ base = listSource ->
    OutputMafIterator_run writeBlock (length blocks + k)
      (mkOutputMafIterator base sink mask) blocks
    = ((Some <$> blocks) ++ replicate k None,
       (mkOutputMafIterator base
          (fold_left (writeBlock mask) blocks <$> sink) mask, []))%list.
Proof.
  induction blocks as [| b blocks IH]; intros base sink mask Hsrc.
  - cbn [length Nat.add fmap list_fmap app fold_left].
    rewrite OutputMafIterator_run_exhausted by exact Hsrc.
    now destruct sink.
  - cbn [length Nat.add OutputMafIterator_run].
    unfold OutputMafIterator_nextBlock. cbn [om_base output_ mask_].
    rewrite Hsrc. cbn [listSource].
    destruct sink as [o |]; rewrite (IH base _ mask Hsrc); reflexivity.
Qed.

End OutputRuns.

(** C6: the constructor keeps the upstream and the mask it is given and
    writes the header to the sink when there is one.  A call of
    [nextBlock] returns what the upstream returned, the very same block
    (sequences, score and pass included), leaves the upstream as the
    upstream call left it, and writes the block to the sink when there
    are both a block and a sink, leaving the sink alone otherwise; this
    holds of the iterator the constructor builds, with a sink or
    without.  Over a finite sequence of blocks the calls return the
    blocks of the sequence in order; the sink, when there is one,
    receives the header followed by each block in turn, and when there
    is none there is none afterwards. *)
Theorem C6_output_iterator_is_a_pass_through {World : Type}
    (writeHeader : bool -> ostream -> ostream)
    (writeBlock : bool -> ostream -> MafBlock -> ostream) :
  (forall (message : option OutputStream) (iterator : MafIteratorPtr World)
          (out : option ostream) (mask : bool),
      output_ (OutputMafIterator_new writeHeader message iterator out mask)
      = match out with
        | Some o => Some (writeHeader mask o)
        | None => None
        end) /\
  (forall (self : OutputMafIterator World) (w : World),
      let upstream := iterator_ (om_base self) w in
      let result := OutputMafIterator_nextBlock writeBlock self w in
      fst result = fst upstream /\
      getAlignment <$> fst result = getAlignment <$> fst upstream /\
      getScore <$> fst result = getScore <$> fst upstream /\
      getPass <$> fst result = getPass <$> fst upstream /\
      snd (snd result) = snd upstream /\
      om_base (fst (snd result)) = om_base self /\
      mask_ (fst (snd result)) = mask_ self /\
      output_ (fst (snd result))
      = match output_ self, fst upstream with
        | Some o, Some b => Some (writeBlock (mask_ self) o b)
        | sink, _ => sink
        end) /\
  (forall (message : option OutputStream) (out : ostream) (mask : bool)
          (blocks : list MafBlock),
      let self :=
        OutputMafIterator_new writeHeader message listSource (Some out) mask in
      let result :=
        OutputMafIterator_run writeBlock (length blocks) self blocks in
      fst result = map Some blocks /\
      output_ (fst (snd result))
      = Some (fold_left (writeBlock mask) blocks (writeHeader mask out))) /\
  (forall (message : option OutputStream) (iterator : MafIteratorPtr World)
          (out : option ostream) (mask : bool) (w : World),
      let self :=
        OutputMafIterator_new writeHeader message iterator out mask in
      let result := OutputMafIterator_nextBlock writeBlock self w in
      om_base self = AbstractFilterMafIterator_new message iterator /\
      iterator_ (om_base self) = iterator /\
      mask_ self = mask /\
      fst result = fst (iterator w) /\
      snd (snd result) = snd (iterator w) /\
      iterator_ (om_base (fst (snd result))) = iterator /\
      output_ (fst (snd result))
      = match out, fst (iterator w) with
        | Some o, Some b => Some (writeBlock mask (writeHeader mask o) b)
        | Some o, None => Some (writeHeader mask o)
        | None, _ => None
        end) /\
  (forall (message : option OutputStream) (out : option ostream) (mask : bool)
          (blocks : list MafBlock),
      let self :=
        OutputMafIterator_new writeHeader message listSource out mask in
      let result :=
        OutputMafIterator_run writeBlock (length blocks) self blocks in
      fst result = map Some blocks /\
      snd (snd result) = [] /\
      output_ (fst (snd result))
      = match out with
        | Some o =>
            Some (fold_left (writeBlock mask) blocks (writeHeader mask o))
        | None => None
        end).
Proof.
  split_and!.
  - intros message iterator [o |] mask; reflexivity.
  - intros self w upstream result. subst upstream result.
    unfold OutputMafIterator_nextBlock.
    destruct (iterator_ (om_base self) w) as [[b |] w'];
      destruct (output_ self) as [o |] eqn:Hout; simpl;
      split_and!; try reflexivity; exact Hout.
  - intros message out mask blocks self result. subst self result.
    unfold OutputMafIterator_new.
    rewrite OutputMafIterator_run_listSource by reflexivity.
    split; reflexivity.
  - intros message iterator out mask w self result. subst self result.
    unfold OutputMafIterator_new, OutputMafIterator_nextBlock.
    destruct out as [o |]; cbn [om_base output_ mask_ iterator_
                                 AbstractFilterMafIterator_new];
      destruct (iterator w) as [[b |] w']; now split_and!.
  - intros message out mask blocks self result. subst self result.
    unfold OutputMafIterator_new.
    rewrite <- (Nat.add_0_r (length blocks)).
    destruct out as [o |];
      rewrite OutputMafIterator_run_through by reflexivity;
      cbn [replicate fst snd output_ fmap option_fmap option_map];
      rewrite app_nil_r; now split_and!.
Qed.

(** ** The trash queue of the windowed filters *)

Section TrashQueueLaws.

Context {T : Type} `{MafTrashIterator T}.
Variable trashBuffer : T -> list MafBlock.
Variable push_back : MafBlock -> T -> T.

Hypothesis pop_empty :
  forall self, trashBuffer self = [] -> nextRemovedBlock self = (None, self).
Hypothesis pop_front :
  forall self b rest,
    trashBuffer self = b :: rest ->
    fst (nextRemovedBlock self) = Some b /\
    trashBuffer (snd (nextRemovedBlock self)) = rest.
Hypothesis push_back_spec :
  forall b self, trashBuffer (push_back b self) = (trashBuffer self ++ [b])%list.

Lemma drain_fifo (queue : list MafBlock) :
  forall self : T,
    trashBuffer self = queue ->
    fst (drain (S (length queue)) self) = (map Some queue ++ [None])%list.
Proof.
  induction queue as [| b rest IH]; intros self Hq.
  - cbn [length drain]. now rewrite (pop_empty self Hq).
  - destruct (pop_front self b rest Hq) as [Hb Hrest].
    change (drain (S (length (b :: rest))) self)
      with (let (block, self') := nextRemovedBlock self in
            let (blocks, final) := drain (S (length rest)) self' in
            (block :: blocks, final)).
    destruct (nextRemovedBlock self) as [block self']. simpl in Hb, Hrest.
    specialize (IH self' Hrest).
    destruct (drain (S (length rest)) self') as [blocks final].
    simpl in IH. simpl. now rewrite Hb, IH.
Qed.

Lemma trash_queue_laws : TrashQueue trashBuffer push_back.
Proof.
  intros self. split_and!.
  - apply pop_empty.
  - apply pop_front.
  - split.
    + destruct (trashBuffer self) as [| b rest] eqn:Hq; [reflexivity |].
      destruct (pop_front self b rest Hq) as [Hb _]. congruence.
    + intros Hq. now rewrite (pop_empty self Hq).
  - now apply drain_fifo.
  - intros b. split; [apply push_back_spec |].
    intros Hq. rewrite (pop_empty self Hq). split; [reflexivity |].
    apply (pop_front _ b []). cbn [snd].
    now rewrite push_back_spec, Hq.
Qed.

End TrashQueueLaws.

(** C9: in each of the three windowed filters [nextRemovedBlock] removes
    and returns the oldest block of the trash queue, returns the null
    pointer exactly when the queue is empty at the call, and leaves the
    object such that a block queued afterwards is returned by the next
    call. *)
Theorem C9_nextRemovedBlock_is_fifo {World : Type} :
  TrashQueue (T := AlignmentFilterMafIterator World)
    af_trashBuffer_ af_trash_push_back /\
  TrashQueue (T := MaskFilterMafIterator World)
    mf_trashBuffer_ mf_trash_push_back /\
  TrashQueue (T := QualityFilterMafIterator World)
    qf_trashBuffer_ qf_trash_push_back.
Proof.
  split_and!; apply trash_queue_laws;
    unfold nextRemovedBlock, AlignmentFilter_trash, MaskFilter_trash,
      QualityFilter_trash, AlignmentFilterMafIterator_nextRemovedBlock,
      MaskFilterMafIterator_nextRemovedBlock,
      QualityFilterMafIterator_nextRemovedBlock.
  all: try (intros self Hq; now rewrite Hq).
  all: try (intros self b rest Hq; now rewrite Hq).
  all: reflexivity.
Qed.

Lemma C9_nextRemovedBlock_witness :
  let filter :=
    AlignmentFilterMafIterator_new None listSource ["human"; "mouse"] 10 5 3 true in
  let b := singletonBlock "human.chr1" "AC-" in
  let b' := singletonBlock "human.chr1" "ACGTACGT" in
  let filter' := af_trash_push_back b' (af_trash_push_back b filter) in
  nextRemovedBlock filter = (None, filter) /\
  (fst (nextRemovedBlock filter) = None /\
   fst (nextRemovedBlock (af_trash_push_back b (snd (nextRemovedBlock filter))))
   = Some b) /\
  (fst (nextRemovedBlock filter') = Some b /\
   af_trashBuffer_ (snd (nextRemovedBlock filter')) = [b']).
Proof.
  intros filter b b' filter'.
  destruct (C9_nextRemovedBlock_is_fifo (World := list MafBlock))
    as (Haf & _ & _).
  destruct (Haf filter) as (Hempty & _ & _ & _ & Hlater).
  destruct (Haf filter') as (_ & Hfront & _).
  split; [| split].
  - exact (Hempty eq_refl).
  - exact (proj2 (Hlater b) eq_refl).
  - exact (Hfront b [b'] eq_refl).
Defined.

(** * Further properties *)

(** ** MafSequence *)

Lemma hasSeparator_split (name : string) :
  hasSeparator name = true ->
  exists sp chr : string,
    name = sp ++ String "." chr /\ hasSeparator sp = false.
Proof.
  induction name as [| a name IH]; cbn [hasSeparator]; [discriminate |].
  destruct (Ascii.eqb_spec a ".") as [-> | Hne].
  - intros _. exists "", name. now rewrite append_nil.
  - intros H. destruct (IH H) as (sp & chr & -> & Hsp).
    exists (String a sp), chr. rewrite append_cons. split; [reflexivity |].
    cbn [hasSeparator].
    destruct (Ascii.eqb_spec a "."); [contradiction | exact Hsp].
Qed.

(** X1: a name with a dot is recovered from the two parts the
    constructors cut it into, and the species part is free of dots. *)
Theorem name_recovered_from_species_and_chromosome
    (name sequence : string) (begin : Z) (strand : ascii) (srcSize : Z) :
  hasSeparator name = true ->
  let s := MafSequence_named name sequence in
  let s' := MafSequence_located name sequence begin strand srcSize in
  getSpecies s ++ String "." (getChromosome s) = name /\
  hasSeparator (getSpecies s) = false /\
  getSpecies s' = getSpecies s /\ getChromosome s' = getChromosome s.
Proof.
  intros H. destruct (hasSeparator_split name H) as (sp & chr & -> & Hsp).
  unfold MafSequence_named, MafSequence_located. cbn zeta.
  match goal with
  | |- context [constructor_body _ ?a] =>
      destruct (constructor_body_split sp chr a Hsp) as [-> ->]
  end.
  match goal with
  | |- context [constructor_body _ ?a] =>
      destruct (constructor_body_split sp chr a Hsp) as [-> ->]
  end.
  now split_and!.
Qed.

Lemma name_recovered_witness :
  getSpecies (MafSequence_named "mouse.chr3.alt" "AC") ++
    String "." (getChromosome (MafSequence_named "mouse.chr3.alt" "AC"))
  = "mouse.chr3.alt".
Proof.
  exact (proj1 (name_recovered_from_species_and_chromosome
                  "mouse.chr3.alt" "AC" 0 "+" 0 eq_refl)).
Defined.

Lemma constructor_body_content_size (name : string) (s : MafSequence) :
  content_ (constructor_body name s) = content_ s /\
  size_ (constructor_body name s)
  = SequenceTools_getNumberOfSites (content_ s) /\
  hasCoordinates_ (constructor_body name s) = hasCoordinates_ s /\
  begin_ (constructor_body name s) = begin_ s.
Proof. unfold constructor_body. now destruct (find "." name). Qed.

(** X2: the constructors and every edit other than a substitution leave
    the genomic size equal to the number of non-gap symbols, whatever it
    was before the edit: an insertion or deletion also repairs a size
    that a substitution left stale. *)
Theorem cache_fresh_after_construction_and_edition :
  (forall (name sequence : string) (begin : Z) (strand : ascii) (srcSize : Z),
      Z.of_nat (String.length sequence) < UINT_MODULUS ->
      genomicSizeFresh (MafSequence_named name sequence) /\
      genomicSizeFresh (MafSequence_located name sequence begin strand srcSize)) /\
  (forall (e : Edition) (s s' : MafSequence),
      applyEdition e s = Return s' ->
      Z.of_nat (length (content_ s')) < UINT_MODULUS ->
      genomicSizeFresh s').
Proof.
  split.
  - intros name sequence begin strand srcSize Hlen.
    assert (Hl : Z.of_nat (length (list_ascii_of_string sequence))
                 < UINT_MODULUS).
    { clear -Hlen. revert Hlen. generalize UINT_MODULUS. intros m.
      replace (length (list_ascii_of_string sequence))
        with (String.length sequence); [trivial |].
      induction sequence as [| a r IH]; simpl; [reflexivity | now rewrite IH]. }
    unfold genomicSizeFresh, getGenomicSize, MafSequence_named,
      MafSequence_located.
    split.
    + match goal with
      | |- context [constructor_body _ ?a] =>
          destruct (constructor_body_content_size name a) as (-> & -> & _)
      end.
      now apply getNumberOfSites_exact.
    + match goal with
      | |- context [constructor_body _ ?a] =>
          destruct (constructor_body_content_size name a) as (-> & -> & _)
      end.
      now apply getNumberOfSites_exact.
  - intros e s s' Hrun Hlen.
    assert (Hre : size_ s' = SequenceTools_getNumberOfSites (content_ s')).
    { destruct e as [content | c | pos c | pos]; simpl in Hrun.
      - now injection Hrun as <-.
      - now injection Hrun as <-.
      - unfold addElementAt in Hrun. case_decide; [| discriminate].
        now injection Hrun as <-.
      - unfold deleteElement in Hrun. case_decide; [| discriminate].
        now injection Hrun as <-. }
    unfold genomicSizeFresh, getGenomicSize. rewrite Hre.
    now apply getNumberOfSites_exact.
Qed.

Lemma cache_fresh_witness :
  genomicSizeFresh (MafSequence_named "human.chr1" "AC-GT") /\
  (forall s' : MafSequence,
      setElement 0 "-"%char (MafSequence_named "human.chr1" "A") = Return s' ->
      ~ genomicSizeFresh s' /\ genomicSizeFresh (addElement "C"%char s')).
Proof.
  split.
  - apply (proj1 cache_fresh_after_construction_and_edition
             "human.chr1" "AC-GT" 0 "+"%char 0).
    vm_compute. reflexivity.
  - intros s' [= <-]. split.
    + unfold genomicSizeFresh. simpl. discriminate.
    + apply (proj2 cache_fresh_after_construction_and_edition
               (ElementAppended "C"%char) _ _ eq_refl).
      vm_compute. reflexivity.
Defined.

Lemma nonGapCount_cons (c : Symbol) (l : list Symbol) :
  nonGapCount (c :: l) = (nonGap c + nonGapCount l)%nat.
Proof. unfold nonGap. simpl. now destruct (isGap c). Qed.

Lemma nonGapCount_app (l1 l2 : list Symbol) :
  nonGapCount (l1 ++ l2) = (nonGapCount l1 + nonGapCount l2)%nat.
Proof.
  induction l1 as [| c l1 IH]; [reflexivity |].
  rewrite <- app_comm_cons, !nonGapCount_cons, IH. lia.
Qed.

Lemma nonGapCount_insert (l : list Symbol) :
  forall (pos : nat) (old c : Symbol),
    l !! pos = Some old ->
    (nonGapCount (<[pos := c]> l) + nonGap old
     = nonGapCount l + nonGap c)%nat.
Proof.
  induction l as [| x l IH]; intros [| pos] old c Hl; try discriminate.
  - injection Hl as ->. simpl insert. rewrite !nonGapCount_cons. lia.
  - simpl in Hl. simpl insert. rewrite !nonGapCount_cons.
    specialize (IH pos old c Hl). lia.
Qed.

(** X3: a substitution at a valid position succeeds, and on a sequence
    whose genomic size was right it leaves the size right exactly when
    the new symbol is a gap if and only if the old one was. *)
Theorem substitution_fresh_iff_gap_status_kept
    (s : MafSequence) (pos : nat) (old c : Symbol) :
  genomicSizeFresh s ->
  content_ s !! pos = Some old ->
  exists s' : MafSequence,
    setElement pos c s = Return s' /\
    content_ s' = <[pos := c]> (content_ s) /\
    (genomicSizeFresh s' <-> isGap c = isGap old).
Proof.
  intros Hfresh Hold. unfold setElement.
  case_decide as Hpos; [| apply lookup_lt_Some in Hold; contradiction].
  eexists. split; [reflexivity |]. split; [reflexivity |].
  unfold genomicSizeFresh, getGenomicSize in *.
  unfold afterSequenceSubstituted, beforeSequenceSubstituted. simpl.
  rewrite Hfresh.
  pose proof (nonGapCount_insert (content_ s) pos old c Hold) as Hcount.
  unfold nonGap in Hcount.
  destruct (isGap old), (isGap c); split; intros H; try reflexivity;
    try discriminate; try (f_equal; lia); lia.
Qed.

Lemma substitution_fresh_witness :
  exists s' : MafSequence,
    setElement 1 "T"%char (MafSequence_named "human.chr1" "AC-G") = Return s' /\
    content_ s' = ["A"; "T"; "-"; "G"]%char /\
    (genomicSizeFresh s' <-> isGap "T"%char = isGap "C"%char).
Proof.
  exact (substitution_fresh_iff_gap_status_kept
           (MafSequence_named "human.chr1" "AC-G") 1 "C"%char "T"%char
           eq_refl eq_refl).
Defined.

(** X4: on a sequence with coordinates and a right genomic size,
    appending a gap leaves [stop] where it was and appending any other
    symbol moves it one position up. *)
Theorem stop_follows_appended_symbol (s : MafSequence) (c : Symbol) :
  hasCoordinates s = true ->
  genomicSizeFresh s ->
  Z.of_nat (length (content_ s)) + 1 < UINT_MODULUS ->
  0 <= begin_ s ->
  1 <= begin_ s + getGenomicSize s < UINT_MODULUS ->
  stop s = Return (begin_ s + getGenomicSize s - 1) /\
  stop (addElement c s)
  = Return (begin_ s + getGenomicSize s - 1 + Z.of_nat (nonGap c)) /\
  start (addElement c s) = start s.
Proof.
  unfold hasCoordinates, genomicSizeFresh, getGenomicSize.
  intros Hc Hfresh Hlen Hb Hrange.
  assert (Hsize : size_ (addElement c s)
                  = size_ s + Z.of_nat (nonGap c)).
  { unfold addElement, afterSequenceInserted, beforeSequenceInserted. simpl.
    rewrite getNumberOfSites_exact.
    - rewrite nonGapCount_app, nonGapCount_cons, Hfresh. simpl. lia.
    - rewrite length_app. simpl. lia. }
  unfold stop, start.
  change (hasCoordinates_ (addElement c s)) with (hasCoordinates_ s).
  change (begin_ (addElement c s)) with (begin_ s).
  rewrite Hc, Hsize. split_and!; try reflexivity; f_equal.
  - apply wrap32_small. lia.
  - rewrite wrap32_small; [lia |].
    unfold nonGap. destruct (isGap c); simpl; lia.
Qed.

Lemma stop_follows_appended_witness :
  stop (addElement "-"%char
          (MafSequence_located "human.chr1" "ACG" 100 "+" 5000)) = Return 102 /\
  stop (addElement "T"%char
          (MafSequence_located "human.chr1" "ACG" 100 "+" 5000)) = Return 103.
Proof.
  pose (s := MafSequence_located "human.chr1" "ACG" 100 "+" 5000).
  assert (H1 : hasCoordinates s = true) by reflexivity.
  assert (H2 : genomicSizeFresh s) by reflexivity.
  assert (H3 : Z.of_nat (length (content_ s)) + 1 < UINT_MODULUS)
    by (vm_compute; reflexivity).
  assert (H4 : 0 <= begin_ s) by (vm_compute; discriminate).
  assert (H5 : 1 <= begin_ s + getGenomicSize s < UINT_MODULUS)
    by (vm_compute; split; [discriminate | reflexivity]).
  split.
  - exact (proj1 (proj2 (stop_follows_appended_symbol s "-"%char
                           H1 H2 H3 H4 H5))).
  - exact (proj1 (proj2 (stop_follows_appended_symbol s "T"%char
                           H1 H2 H3 H4 H5))).
Defined.

(** X5: [removeCoordinates] makes [start], [stop] and [getDescription]
    throw and touches nothing but the flag and the begin; a later
    [setStart] brings coordinates back with the genomic size the
    sequence had. *)
Theorem removeCoordinates_only_forgets_position (s : MafSequence) (b : Z) :
  let s' := removeCoordinates s in
  hasCoordinates s' = false /\
  throws (start s') /\ throws (stop s') /\ throws (getDescription s') /\
  mkMafSequence (name_ s') (content_ s') (hasCoordinates_ s) (begin_ s)
    (species_ s') (chromosome_ s') (strand_ s') (size_ s') (srcSize_ s') = s /\
  start (setStart b s') = Return b /\
  stop (setStart b s') = Return (wrap32 (b + getGenomicSize s - 1)) /\
  returnsNormally (getDescription (setStart b s')).
Proof.
  destruct s. cbn. split_and!; reflexivity || exact I.
Qed.

Lemma all_gaps_count_zero (content : list Symbol) :
  Forall (fun c => isGap c = true) content -> nonGapCount content = 0%nat.
Proof.
  induction 1 as [| c l Hc _ IH]; [reflexivity |].
  simpl. now rewrite Hc.
Qed.

(** X6: for a sequence made of gaps only, the genomic size is 0 and,
    once a start is set, [stop] is the position before the start; at
    start 0 there is no such position and [stop] is the largest
    [unsigned int]. *)
Theorem stop_of_empty_genomic_range (name sequence : string) (b : Z) :
  Forall (fun c => isGap c = true) (list_ascii_of_string sequence) ->
  0 <= b < UINT_MODULUS ->
  let s := setStart b (MafSequence_named name sequence) in
  getGenomicSize s = 0 /\
  start s = Return b /\
  stop s = Return (if b =? 0 then UINT_MODULUS - 1 else b - 1).
Proof.
  intros Hgaps Hb s. subst s.
  assert (Hsize : size_ (MafSequence_named name sequence) = 0).
  { unfold MafSequence_named.
    match goal with
    | |- context [constructor_body _ ?a] =>
        destruct (constructor_body_content_size name a) as (_ & -> & _)
    end.
    unfold SequenceTools_getNumberOfSites. simpl content_.
    now rewrite (all_gaps_count_zero _ Hgaps). }
  unfold getGenomicSize, start, stop, setStart. simpl. rewrite Hsize.
  split_and!; try reflexivity. f_equal.
  destruct (Z.eqb_spec b 0) as [-> | Hne].
  - reflexivity.
  - replace (b + 0 - 1) with (b - 1) by lia. apply wrap32_small. lia.
Qed.

Lemma stop_of_empty_genomic_range_witness :
  stop (setStart 0 (MafSequence_named "human.chr1" "---"))
  = Return 4294967295 /\
  stop (setStart 7 (MafSequence_named "human.chr1" "---")) = Return 6.
Proof.
  split.
  - apply (stop_of_empty_genomic_range "human.chr1" "---" 0).
    + repeat constructor.
    + vm_compute. split; [discriminate | reflexivity].
  - apply (stop_of_empty_genomic_range "human.chr1" "---" 7).
    + repeat constructor.
    + vm_compute. split; [discriminate | reflexivity].
Defined.

(** ** MafBlock *)

Lemma getSequenceForSpecies_loop_find (species : string) (b : MafBlock)
    (post : list MafSequence) :
  forall pre : list MafSequence,
    sequences_ (alignment_ b) = (pre ++ post)%list ->
    getSequenceForSpecies_loop (length post) (length pre) species b
    = match list_find (fun s => getSpecies s = species) post with
      | Some (_, s) => Found s
      | None => notFound
      end.
Proof.
  induction post as [| s post IH]; intros pre Hseqs; [reflexivity |].
  cbn [length getSequenceForSpecies_loop]. unfold getSequence.
  rewrite Hseqs, lookup_app_r, Nat.sub_diag by lia. cbn [lookup list_lookup].
  cbn [list_find]. destruct (String.eqb_spec (getSpecies s) species) as [He | Hne].
  - now rewrite decide_True.
  - rewrite decide_False by assumption.
    specialize (IH (pre ++ [s])%list). rewrite length_app in IH.
    cbn [length] in IH.
    rewrite Nat.add_1_r in IH. rewrite IH by now rewrite <- app_assoc.
    now destruct (list_find _ post) as [[? ?] |].
Qed.

Lemma getSequenceForSpecies_find (species : string) (b : MafBlock) :
  Z.of_nat (length (sequences_ (alignment_ b))) < UINT_MODULUS ->
  getSequenceForSpecies species b
  = match list_find (fun s => getSpecies s = species)
            (sequences_ (alignment_ b)) with
    | Some (_, s) => Found s
    | None => notFound
    end.
Proof.
  intros Hlen. unfold getSequenceForSpecies, getNumberOfSequences.
  rewrite wrap32_small by lia. rewrite Nat2Z.id.
  now apply (getSequenceForSpecies_loop_find species b _ []).
Qed.

(** X7: [getSequenceForSpecies] returns the first sequence of the block,
    in block order, whose species is the one asked for; it throws
    [SequenceNotFoundException] exactly when no sequence of the block has
    that species, and throws nothing else. *)
Theorem getSequenceForSpecies_first_match (species : string) (b : MafBlock) :
  Z.of_nat (length (sequences_ (alignment_ b))) < UINT_MODULUS ->
  (forall s : MafSequence,
      getSequenceForSpecies species b = Found s <->
      exists i : nat,
        sequences_ (alignment_ b) !! i = Some s /\
        getSpecies s = species /\
        forall (j : nat) (s' : MafSequence),
          sequences_ (alignment_ b) !! j = Some s' -> (j < i)%nat ->
          getSpecies s' <> species) /\
  (getSequenceForSpecies species b = notFound <->
   Forall (fun s => getSpecies s <> species) (sequences_ (alignment_ b))) /\
  (forall e : Exception, getSequenceForSpecies species b <> Raised (Rethrown e)).
Proof.
  intros Hlen. rewrite (getSequenceForSpecies_find species b Hlen).
  destruct (list_find _ (sequences_ (alignment_ b))) as [[i x] |] eqn:Hfind.
  - apply list_find_Some in Hfind. destruct Hfind as (Hi & Hx & Hbefore).
    split_and!.
    + intros s. split.
      * intros [= <-]. exists i. now split_and!.
      * intros (i' & Hi' & Hs & Hbefore'). f_equal.
        destruct (Nat.lt_total i i') as [Hlt | [-> | Hgt]].
        -- now destruct (Hbefore' i x Hi Hlt).
        -- congruence.
        -- now destruct (Hbefore i' s Hi' Hgt).
    + split; [discriminate |]. intros Hall.
      rewrite Forall_forall in Hall.
      destruct (Hall x); [| exact Hx]. eapply list_elem_of_lookup_2, Hi.
    + discriminate.
  - apply list_find_None in Hfind. split_and!.
    + intros s. split; [discriminate |].
      intros (i & Hi & Hs & _). rewrite Forall_forall in Hfind.
      destruct (Hfind s); [| exact Hs]. eapply list_elem_of_lookup_2, Hi.
    + split; [intros _; exact Hfind | reflexivity].
    + discriminate.
Qed.

Lemma getSequenceForSpecies_witness :
  getSequenceForSpecies "mouse" humanMouseBlock
  = Found (MafSequence_located "mouse.chr3" "A-G" 500 "-" 9000) /\
  getSequenceForSpecies "rat" humanMouseBlock = notFound.
Proof.
  assert (Hlen : Z.of_nat (length (sequences_ (alignment_ humanMouseBlock)))
                 < UINT_MODULUS) by (vm_compute; reflexivity).
  split.
  - apply (proj1 (getSequenceForSpecies_first_match "mouse" humanMouseBlock
                    Hlen)).
    exists 1%nat. split_and!; try reflexivity.
    intros [| j] s' Hs' Hj; [| lia]. injection Hs' as <-. discriminate.
  - apply (proj1 (proj2 (getSequenceForSpecies_first_match "rat"
                           humanMouseBlock Hlen))).
    repeat constructor; discriminate.
Defined.

Lemma list_find_insert_invariant {A} (P : A -> Prop) `{forall x, Decision (P x)}
    (f : A -> A) (l : list A) :
  (forall x, P (f x) <-> P x) ->
  forall (i : nat) (x : A),
    l !! i = Some x ->
    list_find P (<[i := f x]> l)
    = match list_find P l with
      | Some (j, y) => Some (j, if decide (j = i) then f y else y)
      | None => None
      end.
Proof.
  intros HP. induction l as [| a l IH]; intros [| i] x Hx; try discriminate.
  - injection Hx as <-. cbn [insert list_insert list_find].
    destruct (decide (P a)) as [Ha | Hna].
    + rewrite decide_True by now apply HP. reflexivity.
    + rewrite decide_False by now rewrite HP.
      destruct (list_find P l) as [[j y] |]; reflexivity.
  - cbn in Hx. change (<[S i := f x]> (a :: l)) with (a :: <[i := f x]> l).
    cbn [list_find].
    destruct (decide (P a)); [reflexivity |].
    rewrite (IH i x Hx).
    destruct (list_find P l) as [[j y] |]; [| reflexivity]. cbn.
    destruct (decide (j = i)) as [-> | Hne].
    + now rewrite decide_True.
    + rewrite decide_False by lia. reflexivity.
Qed.

(** X8: [removeCoordinatesFromSequence] at a valid index strips the
    coordinates of that one sequence and leaves the rest of the block
    alone: the other sequences, the numbers of sequences and of sites,
    the score and the pass.  A lookup by species finds the sequence it
    found before, without its coordinates if it is the one at the index.
    An index past the end throws. *)
Theorem removeCoordinatesFromSequence_frame (i : nat) (b : MafBlock) :
  Z.of_nat (length (sequences_ (alignment_ b))) < UINT_MODULUS ->
  (forall s : MafSequence,
      getSequence i b = Return s ->
      exists b' : MafBlock,
        removeCoordinatesFromSequence i b = Return b' /\
        getSequence i b' = Return (removeCoordinates s) /\
        (forall j : nat, j <> i -> getSequence j b' = getSequence j b) /\
        getNumberOfSequences b' = getNumberOfSequences b /\
        getNumberOfSites b' = getNumberOfSites b /\
        getScore b' = getScore b /\ getPass b' = getPass b /\
        (forall species : string,
            match getSequenceForSpecies species b with
            | Found x =>
                getSequenceForSpecies species b' = Found x \/
                (x = s /\
                 getSequenceForSpecies species b' = Found (removeCoordinates s))
            | Raised e => getSequenceForSpecies species b' = Raised e
            end)) /\
  ((length (sequences_ (alignment_ b)) <= i)%nat ->
   removeCoordinatesFromSequence i b
   = Throw (IndexOutOfBoundsException "getSequence")).
Proof.
  intros Hlen. unfold removeCoordinatesFromSequence, getSequence. split.
  - intros s Hs.
    destruct (sequences_ (alignment_ b) !! i) as [s0 |] eqn:Hi;
      [| discriminate].
    injection Hs as ->. eexists. split; [reflexivity |].
    cbn [alignment_ sequences_ length_ getNumberOfSequences getNumberOfSites
         getScore getPass score_ pass_].
    split_and!; try reflexivity.
    + rewrite list_lookup_insert_eq; [reflexivity |].
      eapply lookup_lt_Some, Hi.
    + intros j Hj. now rewrite list_lookup_insert_ne by congruence.
    + unfold getNumberOfSequences. cbn [alignment_ sequences_].
      now rewrite length_insert.
    + intros species.
      rewrite !getSequenceForSpecies_find;
        cbn [alignment_ sequences_]; rewrite ?length_insert; try exact Hlen.
      rewrite (list_find_insert_invariant _ removeCoordinates _
                 (fun x => iff_refl (getSpecies x = species)) i s Hi).
      destruct (list_find _ (sequences_ (alignment_ b))) as [[j y] |] eqn:Hf;
        [| reflexivity].
      destruct (decide (j = i)) as [-> | Hne]; [| now left].
      right. apply list_find_Some in Hf. destruct Hf as (Hy & _).
      assert (y = s) as -> by congruence. now split.
  - intros Hi. now rewrite lookup_ge_None_2.
Qed.

Lemma removeCoordinatesFromSequence_witness :
  exists b' : MafBlock,
    removeCoordinatesFromSequence 1 humanMouseBlock = Return b' /\
    getSequenceForSpecies "mouse" b'
    = Found (removeCoordinates
               (MafSequence_located "mouse.chr3" "A-G" 500 "-" 9000)) /\
    removeCoordinatesFromSequence 3 humanMouseBlock
    = Throw (IndexOutOfBoundsException "getSequence").
Proof.
  assert (Hlen : Z.of_nat (length (sequences_ (alignment_ humanMouseBlock)))
                 < UINT_MODULUS) by (vm_compute; reflexivity).
  destruct (removeCoordinatesFromSequence_frame 1 humanMouseBlock Hlen)
    as [Hin _].
  destruct (Hin _ eq_refl) as (b' & Hb' & _).
  exists b'. split; [exact Hb' |]. split.
  - injection Hb' as <-. reflexivity.
  - apply (proj2 (removeCoordinatesFromSequence_frame 3 humanMouseBlock Hlen)).
    simpl. lia.
Defined.

(** ** The size filter as a whole *)

Lemma filter_all_undersized (minSize : Z) (l : list MafBlock) :
  Forall (undersized minSize) l ->
  List.filter (isUndersized minSize) l = l /\
  List.filter (fun b => negb (isUndersized minSize b)) l = [].
Proof.
  induction 1 as [| b l Hb _ [IH1 IH2]]; [now split |].
  unfold undersized in Hb. apply Z.ltb_lt in Hb.
  change ((getNumberOfSites b <? minSize) = true)
    with (isUndersized minSize b = true) in Hb.
  cbn [List.filter]. rewrite Hb. cbn [negb].
  now rewrite IH1, IH2.
Qed.

Lemma discardLog_app (l1 l2 : list MafBlock) :
  discardLog (l1 ++ l2) = discardLog l1 ++ discardLog l2.
Proof.
  induction l1 as [| d l1 IH]; [reflexivity |].
  cbn [app discardLog]. now rewrite IH, append_assoc.
Qed.

Lemma collect_listSource (n : nat) :
  forall (blocks : list MafBlock)
         (self : BlockSizeMafIterator (list MafBlock))
         (deleted : list MafBlock) (calls fuel : nat),
    (length blocks <= n)%nat ->
    iterator_ (bs_base self) = listSource ->
    (length blocks < calls)%nat ->
    (length blocks < fuel)%nat ->
    exists self' : BlockSizeMafIterator (list MafBlock),
      BlockSizeMafIterator_collect calls fuel
        (mkBlockSizeState self blocks deleted)
      = Some (List.filter (fun b => negb (isUndersized (minSize_ self) b)) blocks,
              mkBlockSizeState self' []
                (deleted ++ List.filter (isUndersized (minSize_ self)) blocks)) /\
      minSize_ self' = minSize_ self /\
      verbose_ (bs_base self') = verbose_ (bs_base self) /\
      logstream_ (bs_base self') =
        match logstream_ (bs_base self) with
        | Some out =>
            Some (out ++ discardLog
                           (List.filter (isUndersized (minSize_ self)) blocks))
        | None => None
        end.
Proof.
  induction n as [| n IH];
    intros blocks self deleted calls fuel Hn Hsrc Hcalls Hfuel.
  - destruct blocks; [| simpl in Hn; lia].
    destruct calls as [| calls]; [lia |].
    destruct (nextBlock_listSource [] self deleted fuel Hsrc Hfuel)
      as (discarded & r & rest & self' & Hrun & _ & Hr & Hmin & _ & Hverb & Hlog).
    cbn [BlockSizeMafIterator_collect]. rewrite Hrun.
    destruct r as [b |]; [destruct Hr as [Hr _]; now destruct discarded |].
    destruct Hr as [<- ->]. exists self'. cbn [List.filter].
    now split_and!.
  - destruct calls as [| calls]; [lia |].
    destruct (nextBlock_listSource blocks self deleted fuel Hsrc Hfuel)
      as (discarded & r & rest & self' & Hrun & Hall & Hr & Hmin & Hsrc'
          & Hverb & Hlog).
    cbn [BlockSizeMafIterator_collect]. rewrite Hrun.
    destruct (filter_all_undersized _ _ Hall) as [Hf1 Hf2].
    destruct r as [b |].
    + destruct Hr as [-> Hge].
      assert (Hb : isUndersized (minSize_ self) b = false)
        by now apply Z.ltb_ge.
      rewrite length_app in Hn, Hcalls, Hfuel.
      cbn [length] in Hn, Hcalls, Hfuel.
      destruct (IH rest self' (deleted ++ discarded)%list calls fuel)
        as (self'' & Hcollect & Hmin' & Hverb' & Hlog'); try lia; try assumption.
      rewrite Hcollect. exists self''.
      rewrite !List.filter_app. cbn [List.filter]. rewrite Hb, Hf1, Hf2.
      cbn [negb app]. rewrite Hmin, <- app_assoc.
      split_and!; try reflexivity; try congruence.
      rewrite Hlog', Hlog, Hmin.
      destruct (logstream_ (bs_base self)) as [out |]; [| reflexivity].
      f_equal. now rewrite append_assoc, discardLog_app.
    + destruct Hr as [-> ->]. exists self'. rewrite Hf1, Hf2.
      now split_and!.
Qed.

(** X9: a consumer that calls the size filter until the null pointer
    receives, over a finite upstream, exactly the blocks with at least
    [minSize] sites, in upstream order; the filter has deleted exactly
    the others, in upstream order, written one line for each of them if
    it has a log stream, and used up the upstream. *)
Theorem BlockSizeMafIterator_partitions_upstream
    (blocks : list MafBlock) (self : BlockSizeMafIterator (list MafBlock))
    (deleted : list MafBlock) :
  iterator_ (bs_base self) = listSource ->
  exists self' : BlockSizeMafIterator (list MafBlock),
    BlockSizeMafIterator_collect (S (length blocks)) (S (length blocks))
      (mkBlockSizeState self blocks deleted)
    = Some (List.filter (fun b => negb (isUndersized (minSize_ self) b)) blocks,
            mkBlockSizeState self' []
              (deleted ++ List.filter (isUndersized (minSize_ self)) blocks)) /\
    logstream_ (bs_base self') =
      match logstream_ (bs_base self) with
      | Some out =>
          Some (out ++ discardLog
                         (List.filter (isUndersized (minSize_ self)) blocks))
      | None => None
      end.
Proof.
  intros Hsrc.
  destruct (collect_listSource (length blocks) blocks self deleted
              (S (length blocks)) (S (length blocks)))
    as (self' & Hrun & _ & _ & Hlog); try lia; try assumption.
  now exists self'.
Qed.

Lemma BlockSizeMafIterator_partitions_witness :
  exists self' : BlockSizeMafIterator (list MafBlock),
    BlockSizeMafIterator_collect 4 4
      (mkBlockSizeState (BlockSizeMafIterator_new (Some "") listSource 2)
         threeBlocks [])
    = Some ([singletonBlock "human.chr1" "AC-";
             singletonBlock "human.chr1" "ACGTACGT"],
            mkBlockSizeState self' [] [singletonBlock "human.chr2" "A"]) /\
    logstream_ (bs_base self')
    = Some ("BLOCK SIZE FILTER: block with size 1 was discarded." ++ endl).
Proof.
  exact (BlockSizeMafIterator_partitions_upstream threeBlocks
           (BlockSizeMafIterator_new (Some "") listSource 2) [] eq_refl).
Defined.

(** X10: the loop of the size filter has no bound of its own.  Over an
    upstream that hands out an undersized block at every call the call
    never returns. *)
Theorem BlockSizeMafIterator_spins_on_endless_undersized {World : Type}
    (fuel : nat) :
  forall st : BlockSizeState World,
    (forall w : World,
        exists (b : MafBlock) (w' : World),
          iterator_ (bs_base (bs_self st)) w = (Some b, w') /\
          getNumberOfSites b < minSize_ (bs_self st)) ->
    BlockSizeMafIterator_nextBlock fuel st = None.
Proof.
  induction fuel as [| fuel IH]; intros st Hup; [reflexivity |].
  cbn [BlockSizeMafIterator_nextBlock].
  destruct (Hup (bs_world st)) as (b & w' & -> & Hb).
  apply Z.ltb_lt in Hb. rewrite Hb. apply IH. cbn [bs_self bs_base minSize_].
  destruct (logDiscarded_fields b (bs_base (bs_self st))) as (-> & _).
  exact Hup.
Qed.

Lemma BlockSizeMafIterator_spins_witness :
  BlockSizeMafIterator_nextBlock 1000
    (mkBlockSizeState
       (BlockSizeMafIterator_new None
          (endlessSource (singletonBlock "human.chr1" "AC")) 5) tt [])
  = None.
Proof.
  apply BlockSizeMafIterator_spins_on_endless_undersized.
  intros w. exists (singletonBlock "human.chr1" "AC"), w.
  split; reflexivity.
Defined.

(** ** The synchronizer as a whole *)

Lemma synchronizer_step_on_pair (p s deleted : list MafBlock) :
  MafIteratorSynchronizer_nextBlock
    (MafIteratorSynchronizer_new None primaryOfPair secondaryOfPair)
    (p, s) deleted
  = (head p, ((tail p, tail s), deleted ++ option_list (head s)))%list.
Proof.
  destruct p as [| b p], s as [| c s]; cbn; rewrite ?app_nil_r; reflexivity.
Qed.

(** X11: over two finite sequences, [k] calls of the synchronizer return
    the first [k] blocks of the primary, then null pointers, take the
    first [k] blocks off the secondary and delete them.  The lengths of
    the two sequences are never compared: with a shorter secondary all
    the blocks of the primary are returned all the same. *)
Theorem MafIteratorSynchronizer_lockstep (k : nat) :
  forall (p s deleted : list MafBlock),
    MafIteratorSynchronizer_run k
      (MafIteratorSynchronizer_new None primaryOfPair secondaryOfPair)
      (p, s) deleted
    = ((Some <$> take k p) ++ replicate (k - length p) None,
       ((drop k p, drop k s), deleted ++ take k s))%list.
Proof.
  induction k as [| k IH]; intros p s deleted.
  - cbn [MafIteratorSynchronizer_run]. rewrite !take_0, !drop_0.
    cbn. now rewrite app_nil_r.
  - cbn [MafIteratorSynchronizer_run]. rewrite synchronizer_step_on_pair.
    rewrite IH.
    destruct p as [| b p], s as [| c s];
      rewrite ?take_nil, ?drop_nil, ?firstn_cons, ?skipn_cons;
      cbn [head tail option_list length Nat.sub fmap list_fmap app replicate];
      rewrite ?take_nil, ?drop_nil, ?Nat.sub_0_r, ?app_nil_r, <- ?app_assoc;
      reflexivity.
Qed.

(** X12: with a [TrashIteratorAdapter] over a windowed filter as the
    secondary, a call of the synchronizer returns what the primary
    returns and disposes of the oldest block that the trash queue holds
    once the primary is done, leaving the rest of the queue. *)
Theorem MafIteratorSynchronizer_empties_trash {World : Type}
    (primary : MafIteratorPtr (AlignmentFilterMafIterator World))
    (filter : AlignmentFilterMafIterator World) (deleted : list MafBlock) :
  let self :=
    MafIteratorSynchronizer_new None primary TrashIteratorAdapter_nextBlock in
  let result := MafIteratorSynchronizer_nextBlock self filter deleted in
  let trash := af_trashBuffer_ (snd (primary filter)) in
  fst result = fst (primary filter) /\
  af_trashBuffer_ (fst (snd result)) = tail trash /\
  snd (snd result) = (deleted ++ option_list (head trash))%list /\
  af_blockBuffer_ (fst (snd result)) = af_blockBuffer_ (snd (primary filter)) /\
  af_window_ (fst (snd result)) = af_window_ (snd (primary filter)).
Proof.
  cbn zeta.
  unfold MafIteratorSynchronizer_nextBlock, MafIteratorSynchronizer_new,
    AbstractFilterMafIterator_new, TrashIteratorAdapter_nextBlock,
    nextRemovedBlock, AlignmentFilter_trash,
    AlignmentFilterMafIterator_nextRemovedBlock.
  cbn [sy_base iterator_ secondaryIterator_].
  destruct (primary filter) as [block filter']. cbn [fst snd].
  destruct (af_trashBuffer_ filter') as [| t rest] eqn:Htrash; cbn.
  - rewrite Htrash, app_nil_r. now split_and!.
  - now split_and!.
Qed.

(** ** GtfFeatureReader: reading lines *)

Section GtfLines.

Variable isEmpty : string -> bool.

Lemma getNextLine_loop_eq (fuel : nat) (self : GtfFeatureReader) :
  getNextLine_loop isEmpty fuel self
  = if passedOver isEmpty (nextLine_ self) then
      match fuel with
      | O => None
      | S fuel' =>
          if eof (input_ self) then
            Some (mkGtfFeatureReader (input_ self) "")
          else
            let (input', line) := getline (input_ self) (nextLine_ self) in
            getNextLine_loop isEmpty fuel' (mkGtfFeatureReader input' line)
      end
    else Some self.
Proof. destruct fuel; reflexivity. Qed.

Lemma passedOver_empty : passedOver isEmpty "" = true.
Proof. unfold passedOver. cbn. now rewrite orb_true_r. Qed.

Lemma untilNewline_shorter (s : string) :
  forall line rest : string,
    untilNewline s = (line, Some rest) ->
    (String.length rest < String.length s)%nat.
Proof.
  induction s as [| c s IH]; intros line rest; cbn [untilNewline];
    [discriminate |].
  destruct (Ascii.eqb c newline).
  - intros [= <- <-]. cbn. lia.
  - destruct (untilNewline s) as [l [after |]]; intros [= <- <-].
    specialize (IH l after eq_refl). cbn [String.length]. lia.
Qed.

Lemma getNextLine_loop_post (fuel : nat) :
  forall self r : GtfFeatureReader,
    getNextLine_loop isEmpty fuel self = Some r ->
    passedOver isEmpty (nextLine_ r) = false \/
    (nextLine_ r = "" /\ eofbit (input_ r) = true).
Proof.
  induction fuel as [| fuel IH]; intros self r; rewrite getNextLine_loop_eq;
    destruct (passedOver isEmpty (nextLine_ self)) eqn:Hp;
    try discriminate; try (intros [= <-]; now left).
  unfold eof. destruct (eofbit (input_ self)) eqn:He.
  - intros [= <-]. right. now split.
  - destruct (getline (input_ self) (nextLine_ self)) as [input' line].
    apply IH.
Qed.

Lemma getNextLine_loop_returns (n : nat) :
  forall self : GtfFeatureReader,
    failbit (input_ self) = false \/ eofbit (input_ self) = true ->
    (String.length (unread (input_ self)) <= n)%nat ->
    exists r : GtfFeatureReader,
      getNextLine_loop isEmpty (n + 2) self = Some r.
Proof.
  induction n as [| n IH]; intros self Hflags Hlen;
    cbn [Nat.add]; rewrite getNextLine_loop_eq;
    (destruct (passedOver isEmpty (nextLine_ self)); [| now eexists]);
    unfold eof; (destruct (eofbit (input_ self)) eqn:He; [now eexists |]);
    (destruct Hflags as [Hf | Hf]; [| discriminate]);
    unfold getline, good; rewrite He, Hf; cbn [negb andb];
    destruct (untilNewline (unread (input_ self))) as [line [rest |]] eqn:Hu.
  - apply untilNewline_shorter in Hu. lia.
  - rewrite getNextLine_loop_eq. cbn [nextLine_ input_ eof eofbit].
    destruct (passedOver isEmpty line); now eexists.
  - apply untilNewline_shorter in Hu.
    apply IH; cbn [input_ failbit unread]; [now left | lia].
  - rewrite getNextLine_loop_eq. cbn [nextLine_ input_ eof eofbit].
    destruct (passedOver isEmpty line); [| now eexists].
    replace (n + 2)%nat with (S (n + 1)) by lia. now eexists.
Qed.

End GtfLines.

(** X13: on a stream that has not failed, [getNextLine_] returns within
    as many rounds as there are characters left plus two, and the line
    it leaves in [nextLine_] is either one that [isEmpty] does not call
    empty, of two characters at least and not starting with a hash, or
    the empty line with the stream at its end. *)
Theorem getNextLine_returns_a_feature_line_or_nothing
    (isEmpty : string -> bool) (self : GtfFeatureReader) :
  failbit (input_ self) = false \/ eofbit (input_ self) = true ->
  exists r : GtfFeatureReader,
    getNextLine_ isEmpty (String.length (unread (input_ self)) + 2) self
    = Some r /\
    ((isEmpty (nextLine_ r) = false /\
      (2 <= String.length (nextLine_ r))%nat /\
      startsWithHash (nextLine_ r) = false) \/
     (nextLine_ r = "" /\ eof (input_ r) = true)).
Proof.
  intros Hflags. unfold getNextLine_.
  destruct (getNextLine_loop_returns isEmpty
              (String.length (unread (input_ self)))
              (mkGtfFeatureReader (input_ self) "") Hflags (Nat.le_refl _))
    as [r Hr].
  exists r. split; [exact Hr |].
  destruct (getNextLine_loop_post isEmpty _ _ _ Hr) as [Hp | Hend];
    [left | now right].
  unfold passedOver in Hp. apply orb_false_elim in Hp as [Hp Hhash].
  apply orb_false_elim in Hp as [Hempty Hshort].
  apply Nat.ltb_ge in Hshort. now split_and!.
Qed.

(** X15: on a stream whose [failbit] is set while [eofbit] is not, as
    after a failed opening, [getNextLine_] never returns: [getline]
    reads nothing, the line stays empty and the end of the stream is
    never seen. *)
Theorem getNextLine_spins_on_failed_stream
    (isEmpty : string -> bool) (fuel : nat) (self : GtfFeatureReader) :
  failbit (input_ self) = true ->
  eofbit (input_ self) = false ->
  getNextLine_ isEmpty fuel self = None.
Proof.
  intros Hf He. unfold getNextLine_.
  remember (input_ self) as input eqn:Hin. clear Hin self.
  revert input Hf He. induction fuel as [| fuel IH]; intros input Hf He;
    rewrite getNextLine_loop_eq; cbn [nextLine_ input_];
    rewrite passedOver_empty; [reflexivity |].
  unfold eof, getline, good. rewrite He, Hf. cbn [negb andb].
  now apply IH.
Qed.

Lemma getNextLine_returns_witness :
  exists r : GtfFeatureReader,
    getNextLine_ onlyBlanks 24
      (mkGtfFeatureReader
         (freshStream ("# header" ++ String newline ("chr1 gene 1 9")))
         "stale")
    = Some r /\
    ((onlyBlanks (nextLine_ r) = false /\
      (2 <= String.length (nextLine_ r))%nat /\
      startsWithHash (nextLine_ r) = false) \/
     (nextLine_ r = "" /\ eof (input_ r) = true)).
Proof.
  exact (getNextLine_returns_a_feature_line_or_nothing onlyBlanks
           (mkGtfFeatureReader
              (freshStream ("# header" ++ String newline ("chr1 gene 1 9")))
              "stale")
           (or_introl eq_refl)).
Defined.

Lemma getNextLine_spins_witness :
  getNextLine_ onlyBlanks 500
    (mkGtfFeatureReader (mkIstream "" false true) "") = None.
Proof.
  exact (getNextLine_spins_on_failed_stream onlyBlanks 500
           (mkGtfFeatureReader (mkIstream "" false true) "")
           eq_refl eq_refl).
Defined.

Section GtfLineByLine.

Variable isEmpty : string -> bool.

Lemma noNewline_cons (c : ascii) (l : string) :
  noNewline (String c l) -> Ascii.eqb c newline = false /\ noNewline l.
Proof.
  unfold noNewline. cbn [find_first_of].
  destruct (Ascii.eqb c newline); [discriminate |].
  destruct (find_first_of newline l); [discriminate | now split].
Qed.

Lemma untilNewline_line (l rest : string) :
  noNewline l -> untilNewline (l ++ String newline rest) = (l, Some rest).
Proof.
  induction l as [| c l IH]; intros Hl.
  - rewrite append_nil. cbn [untilNewline]. now rewrite Ascii.eqb_refl.
  - apply noNewline_cons in Hl as [Hc Hl].
    rewrite append_cons. cbn [untilNewline]. now rewrite Hc, (IH Hl).
Qed.

Lemma getNextLine_loop_finds (passed : list string) :
  forall (l : string) (rest : list string) (current : string),
    passedOver isEmpty current = true ->
    Forall noNewline passed ->
    Forall (fun p => passedOver isEmpty p = true) passed ->
    noNewline l ->
    passedOver isEmpty l = false ->
    getNextLine_loop isEmpty (length passed + 1)
      (mkGtfFeatureReader (freshStream (joinLines (passed ++ l :: rest)))
         current)
    = Some (mkGtfFeatureReader (freshStream (joinLines rest)) l).
Proof.
  induction passed as [| p passed IH];
    intros l rest current Hcur Hnl Hpass Hl Hok;
    cbn [length Nat.add app joinLines]; rewrite getNextLine_loop_eq;
    cbn [nextLine_ input_]; rewrite Hcur;
    unfold eof, getline, good, freshStream; cbn [eofbit failbit unread negb andb].
  - rewrite (untilNewline_line l _ Hl), getNextLine_loop_eq.
    cbn [nextLine_]. now rewrite Hok.
  - inversion Hnl as [| ? ? Hp Hnl']; subst.
    inversion Hpass as [| ? ? Hpp Hpass']; subst.
    rewrite (untilNewline_line p _ Hp).
    now apply IH.
Qed.

Lemma getNextLine_loop_exhausts (passed : list string) :
  forall current : string,
    passedOver isEmpty current = true ->
    Forall noNewline passed ->
    Forall (fun p => passedOver isEmpty p = true) passed ->
    getNextLine_loop isEmpty (length passed + 2)
      (mkGtfFeatureReader (freshStream (joinLines passed)) current)
    = Some (mkGtfFeatureReader (mkIstream "" true true) "").
Proof.
  induction passed as [| p passed IH]; intros current Hcur Hnl Hpass;
    cbn [length Nat.add joinLines]; rewrite getNextLine_loop_eq;
    cbn [nextLine_ input_]; rewrite Hcur;
    unfold eof, getline, good, freshStream; cbn [eofbit failbit unread negb andb].
  - cbn [untilNewline String.eqb]. rewrite getNextLine_loop_eq.
    cbn [nextLine_ input_ eof eofbit]. now rewrite passedOver_empty.
  - inversion Hnl as [| ? ? Hp Hnl']; subst.
    inversion Hpass as [| ? ? Hpp Hpass']; subst.
    rewrite (untilNewline_line p _ Hp).
    now apply IH.
Qed.

End GtfLineByLine.

(** X14: on a file of newline-ended lines [getNextLine_] passes over the
    lines that [isEmpty] calls empty, that have fewer than two
    characters or that start with a hash, stops at the first other
    line, which it leaves in [nextLine_] with the stream just after it,
    and whatever [nextLine_] held before is forgotten.  When every line
    is passed over it leaves the empty line and the stream at its end,
    with [eofbit] and [failbit] set. *)
Theorem getNextLine_stops_at_first_feature_line
    (isEmpty : string -> bool) (passed : list string) (before : string) :
  Forall noNewline passed ->
  Forall (fun p => passedOver isEmpty p = true) passed ->
  (forall (l : string) (rest : list string),
      noNewline l ->
      passedOver isEmpty l = false ->
      getNextLine_ isEmpty (length passed + 1)
        (mkGtfFeatureReader (freshStream (joinLines (passed ++ l :: rest)))
           before)
      = Some (mkGtfFeatureReader (freshStream (joinLines rest)) l)) /\
  getNextLine_ isEmpty (length passed + 2)
    (mkGtfFeatureReader (freshStream (joinLines passed)) before)
  = Some (mkGtfFeatureReader (mkIstream "" true true) "").
Proof.
  intros Hnl Hpass. unfold getNextLine_. cbn [input_]. split.
  - intros l rest Hl Hok.
    now apply getNextLine_loop_finds; [apply passedOver_empty | ..].
  - now apply getNextLine_loop_exhausts; [apply passedOver_empty | ..].
Qed.

Lemma getNextLine_stops_witness :
  getNextLine_ onlyBlanks 4
    (mkGtfFeatureReader
       (freshStream (joinLines ["# comment"; "  "; "x"; "chr1 gene"; "chr2 exon"]))
       "stale")
  = Some (mkGtfFeatureReader (freshStream (joinLines ["chr2 exon"]))
            "chr1 gene") /\
  getNextLine_ onlyBlanks 5
    (mkGtfFeatureReader (freshStream (joinLines ["# comment"; "  "; "x"]))
       "stale")
  = Some (mkGtfFeatureReader (mkIstream "" true true) "").
Proof.
  assert (Hnl : Forall noNewline ["# comment"; "  "; "x"])
    by (repeat constructor).
  assert (Hpass : Forall (fun p => passedOver onlyBlanks p = true)
                    ["# comment"; "  "; "x"])
    by (repeat constructor).
  destruct (getNextLine_stops_at_first_feature_line onlyBlanks
              ["# comment"; "  "; "x"] "stale" Hnl Hpass) as [Hfound Hnone].
  split.
  - exact (Hfound "chr1 gene" ["chr2 exon"] eq_refl eq_refl).
  - exact Hnone.
Defined.

(** ** GtfFeatureReader: the attribute column *)

Section GtfValues.

Variable isWhiteSpaceCharacter : ascii -> bool.

Lemma eraseLeading_split (value : string) :
  exists l : string,
    value = l ++ eraseLeading isWhiteSpaceCharacter value /\
    allErased isWhiteSpaceCharacter l = true /\
    match eraseLeading isWhiteSpaceCharacter value with
    | String c _ => erased isWhiteSpaceCharacter c = false
    | EmptyString => True
    end.
Proof.
  induction value as [| c value (l & Hv & Hl & Hfirst)].
  - exists "". now split_and!.
  - cbn [eraseLeading]. destruct (erased isWhiteSpaceCharacter c) eqn:Hc.
    + exists (String c l). rewrite append_cons, <- Hv.
      cbn [allErased]. rewrite Hc, Hl. now split_and!.
    + exists "". now split_and!.
Qed.

Lemma lastChar_split (s : string) (c : ascii) :
  lastChar s = Some c ->
  s = eraseLast s ++ String c "" /\
  String.length s = S (String.length (eraseLast s)).
Proof.
  induction s as [| a s IH]; [discriminate |].
  destruct s as [| b s].
  - intros [= ->]. now split.
  - intros Hl. destruct (IH Hl) as [Hs Hlen].
    change (eraseLast (String a (String b s)))
      with (String a (eraseLast (String b s))).
    rewrite append_cons, <- Hs. cbn [String.length] in *.
    split; [reflexivity | lia].
Qed.

Lemma eraseTrailing_loop_split (n : nat) :
  forall value : string,
    (String.length value <= n)%nat ->
    exists r t : string,
      eraseTrailing_loop isWhiteSpaceCharacter n value = Some r /\
      value = r ++ t /\
      allErased isWhiteSpaceCharacter t = true /\
      match lastChar r with
      | Some c => erased isWhiteSpaceCharacter c = false
      | None => True
      end.
Proof.
  induction n as [| n IH]; intros value Hlen.
  - destruct value; [| cbn in Hlen; lia].
    exists "", "". now split_and!.
  - cbn [eraseTrailing_loop].
    destruct (lastChar value) as [c |] eqn:Hlast.
    + destruct (erased isWhiteSpaceCharacter c) eqn:Hc.
      * destruct (lastChar_split value c Hlast) as [Hv Hl].
        destruct (IH (eraseLast value)) as (r & t & Hrun & Hsplit & Ht & Hr);
          [lia |].
        exists r, (t ++ String c ""). rewrite Hrun. split_and!; try done.
        -- rewrite <- append_assoc, <- Hsplit. exact Hv.
        -- clear -Ht Hc. induction t as [| a t IHt].
           ++ rewrite append_nil. cbn. now rewrite Hc.
           ++ rewrite append_cons. cbn in *.
              apply andb_prop in Ht as [-> Ht]. now apply IHt.
      * exists value, "". rewrite append_nil_r, Hlast, Hc. now split_and!.
    + exists value, "". rewrite append_nil_r, Hlast. now split_and!.
Qed.

(** The two loops, one after the other. *)
Lemma erase_both_ends (value : string) :
  exists v l t : string,
    eraseTrailing_loop isWhiteSpaceCharacter
      (String.length (eraseLeading isWhiteSpaceCharacter value))
      (eraseLeading isWhiteSpaceCharacter value) = Some v /\
    value = l ++ v ++ t /\
    allErased isWhiteSpaceCharacter l = true /\
    allErased isWhiteSpaceCharacter t = true /\
    endsKept isWhiteSpaceCharacter v.
Proof.
  destruct (eraseLeading_split value) as (l & Hv & Hl & Hfirst).
  destruct (eraseTrailing_loop_split
              (String.length (eraseLeading isWhiteSpaceCharacter value))
              (eraseLeading isWhiteSpaceCharacter value) (Nat.le_refl _))
    as (v & t & Hrun & Hsplit & Ht & Hlast).
  exists v, l, t. split_and!; try done.
  - now rewrite <- Hsplit.
  - split; [| exact Hlast].
    destruct v as [| c v]; [exact I |].
    rewrite Hsplit, append_cons in Hfirst. exact Hfirst.
Qed.

End GtfValues.

(** X16: the two loops that clean the value of an attribute always end;
    they remove a run of double quotes and blanks at the front and one
    at the back and nothing else, and what they leave neither starts nor
    ends with a double quote or a blank. *)
Theorem attribute_value_loses_only_its_wrapping
    (isWhiteSpaceCharacter : ascii -> bool) (value : string) :
  exists v l t : string,
    eraseTrailing_loop isWhiteSpaceCharacter
      (String.length (eraseLeading isWhiteSpaceCharacter value))
      (eraseLeading isWhiteSpaceCharacter value) = Some v /\
    value = l ++ v ++ t /\
    allErased isWhiteSpaceCharacter l = true /\
    allErased isWhiteSpaceCharacter t = true /\
    endsKept isWhiteSpaceCharacter v.
Proof. apply erase_both_ends. Qed.

Section GtfAttributes.

Variable isEmpty : string -> bool.
Variable isWhiteSpaceCharacter : ascii -> bool.
Variable removeSurroundingWhiteSpaces : string -> string.

Lemma find_first_of_split (c : ascii) (key more : string) :
  find_first_of c key = None ->
  find_first_of c (key ++ String c more) = Some (String.length key).
Proof.
  induction key as [| a key IH]; intros Hkey.
  - rewrite append_nil. cbn. now rewrite Ascii.eqb_refl.
  - rewrite append_cons. cbn [find_first_of String.length] in *.
    destruct (Ascii.eqb a c); [discriminate |].
    destruct (find_first_of c key); [discriminate |].
    now rewrite IH.
Qed.

Lemma substr_from_keeps_rest (key rest : string) :
  substr_from (String.length key) (key ++ rest) = rest.
Proof.
  unfold substr_from. induction key as [| a key IH].
  - rewrite append_nil. cbn [String.length]. rewrite Nat.sub_0_r.
    apply substring_whole.
  - rewrite append_cons. cbn [String.length Nat.sub String.substring].
    exact IH.
Qed.

Lemma parseAttribute_never_cut_short (item : string) :
  parseAttribute isWhiteSpaceCharacter removeSurroundingWhiteSpaces item
  <> StillLooping.
Proof.
  unfold parseAttribute.
  destruct (find_first_of " " (removeSurroundingWhiteSpaces item)) as [idx |];
    [| discriminate].
  destruct (erase_both_ends isWhiteSpaceCharacter
              (substr_from idx (removeSurroundingWhiteSpaces item)))
    as (v & _ & _ & -> & _).
  discriminate.
Qed.

Lemma parseAttributes_app (pre post : list string) :
  forall attributes : gmap string string,
    parseAttributes isEmpty isWhiteSpaceCharacter removeSurroundingWhiteSpaces
      (pre ++ post) attributes
    = match parseAttributes isEmpty isWhiteSpaceCharacter
              removeSurroundingWhiteSpaces pre attributes with
      | Parsed attributes' =>
          parseAttributes isEmpty isWhiteSpaceCharacter
            removeSurroundingWhiteSpaces post attributes'
      | OutOfRange => OutOfRange
      | StillLooping => StillLooping
      end.
Proof.
  induction pre as [| item pre IH]; intros attributes; [reflexivity |].
  cbn [app parseAttributes]. destruct (isEmpty item); [apply IH |].
  destruct (parseAttribute _ _ item) as [[key value] | |]; [apply IH | done..].
Qed.

Lemma parseAttributes_never_cut_short (tokens : list string) :
  forall attributes : gmap string string,
    parseAttributes isEmpty isWhiteSpaceCharacter removeSurroundingWhiteSpaces
      tokens attributes <> StillLooping.
Proof.
  induction tokens as [| item tokens IH]; intros attributes;
    cbn [parseAttributes]; [discriminate |].
  destruct (isEmpty item); [apply IH |].
  pose proof (parseAttribute_never_cut_short item) as Hitem.
  destruct (parseAttribute _ _ item) as [[key value] | |];
    [apply IH | discriminate | contradiction].
Qed.

Lemma parseAttributes_keeps_other_keys (key : string) (tokens : list string) :
  forall attributes attributes' : gmap string string,
    silentOn isEmpty isWhiteSpaceCharacter removeSurroundingWhiteSpaces key
      tokens ->
    parseAttributes isEmpty isWhiteSpaceCharacter removeSurroundingWhiteSpaces
      tokens attributes = Parsed attributes' ->
    attributes' !! key = attributes !! key.
Proof.
  induction tokens as [| item tokens IH]; intros attributes attributes' Hsilent;
    cbn [parseAttributes].
  - now intros [= <-].
  - assert (Hrest : silentOn isEmpty isWhiteSpaceCharacter
                      removeSurroundingWhiteSpaces key tokens).
    { intros t k v Ht. apply Hsilent. now right. }
    destruct (isEmpty item) eqn:Hempty; [now apply IH |].
    destruct (parseAttribute _ _ item) as [[k v] | |] eqn:Hitem;
      [| discriminate..].
    intros Hrun. rewrite (IH _ _ Hrest Hrun).
    apply lookup_insert_ne.
    eapply Hsilent; [now left | exact Hempty | exact Hitem].
Qed.

End GtfAttributes.

(** X17: an attribute that, once trimmed, reads "key, space, rest" with
    no space in the key is recorded under that key, and its value is
    the rest without the double quotes and blanks that wrap it. *)
Theorem parseAttribute_key_and_unwrapped_value
    (isWhiteSpaceCharacter : ascii -> bool)
    (removeSurroundingWhiteSpaces : string -> string)
    (item key more : string) :
  removeSurroundingWhiteSpaces item = key ++ String " " more ->
  find_first_of " " key = None ->
  exists value l t : string,
    parseAttribute isWhiteSpaceCharacter removeSurroundingWhiteSpaces item
    = Parsed (key, value) /\
    String " " more = l ++ value ++ t /\
    allErased isWhiteSpaceCharacter l = true /\
    allErased isWhiteSpaceCharacter t = true /\
    endsKept isWhiteSpaceCharacter value.
Proof.
  intros Hitem Hkey. unfold parseAttribute.
  rewrite Hitem, (find_first_of_split " " key more Hkey).
  rewrite substr_prefix, substr_from_keeps_rest.
  destruct (erase_both_ends isWhiteSpaceCharacter (String " " more))
    as (v & l & t & -> & Hsplit & Hl & Ht & Hends).
  now exists v, l, t.
Qed.

Lemma parseAttribute_key_value_witness :
  exists value l t : string,
    parseAttribute isBlank trimBlanks (" transcript_id " ++ quoted "T 1")
    = Parsed ("transcript_id", value) /\
    String " " (quoted "T 1") = l ++ value ++ t /\
    allErased isBlank l = true /\
    allErased isBlank t = true /\
    endsKept isBlank value.
Proof.
  exact (parseAttribute_key_and_unwrapped_value isBlank trimBlanks
           (" transcript_id " ++ quoted "T 1") "transcript_id"
           (quoted "T 1") eq_refl eq_refl).
Defined.

(** X18: an attribute that is not empty and has no space once trimmed
    makes the treatment of the whole column end with the
    [std::out_of_range] of [substr], wherever it stands in the column;
    no attribute is recorded. *)
Theorem parseAttributes_out_of_range_without_space
    (isEmpty : string -> bool) (isWhiteSpaceCharacter : ascii -> bool)
    (removeSurroundingWhiteSpaces : string -> string)
    (pre post : list string) (item : string)
    (attributes : gmap string string) :
  isEmpty item = false ->
  find_first_of " " (removeSurroundingWhiteSpaces item) = None ->
  parseAttributes isEmpty isWhiteSpaceCharacter removeSurroundingWhiteSpaces
    (pre ++ item :: post) attributes = OutOfRange.
Proof.
  intros Hempty Hspace. rewrite parseAttributes_app.
  pose proof (parseAttributes_never_cut_short isEmpty isWhiteSpaceCharacter
                removeSurroundingWhiteSpaces pre attributes) as Hpre.
  destruct (parseAttributes _ _ _ pre attributes) as [attributes' | |];
    [| reflexivity | contradiction].
  cbn [parseAttributes]. rewrite Hempty. unfold parseAttribute.
  now rewrite Hspace.
Qed.

Lemma parseAttributes_out_of_range_witness :
  parseAttributes onlyBlanks isBlank trimBlanks
    (["gene_id " ++ quoted "G1"] ++ " pseudo " :: [" gene_id " ++ quoted "G2"])
    ∅ = OutOfRange.
Proof.
  exact (parseAttributes_out_of_range_without_space onlyBlanks isBlank
           trimBlanks ["gene_id " ++ quoted "G1"] [" gene_id " ++ quoted "G2"]
           " pseudo " ∅ eq_refl eq_refl).
Defined.

(** X19: when the treatment of the column succeeds, a key holds the
    value of the last attribute that sets it, and a key that no
    attribute sets holds what it held before.  The column never leaves
    the second loop unfinished. *)
Theorem parseAttributes_last_value_wins
    (isEmpty : string -> bool) (isWhiteSpaceCharacter : ascii -> bool)
    (removeSurroundingWhiteSpaces : string -> string)
    (tokens : list string) (attributes attributes' : gmap string string)
    (key : string) :
  parseAttributes isEmpty isWhiteSpaceCharacter removeSurroundingWhiteSpaces
    tokens attributes = Parsed attributes' ->
  (forall (pre post : list string) (item value : string),
      tokens = (pre ++ item :: post)%list ->
      isEmpty item = false ->
      parseAttribute isWhiteSpaceCharacter removeSurroundingWhiteSpaces item
      = Parsed (key, value) ->
      silentOn isEmpty isWhiteSpaceCharacter removeSurroundingWhiteSpaces
        key post ->
      attributes' !! key = Some value) /\
  (silentOn isEmpty isWhiteSpaceCharacter removeSurroundingWhiteSpaces
     key tokens ->
   attributes' !! key = attributes !! key).
Proof.
  intros Hrun. split.
  - intros pre post item value -> Hempty Hitem Hsilent.
    rewrite parseAttributes_app in Hrun.
    destruct (parseAttributes _ _ _ pre attributes) as [attributes1 | |];
      [| discriminate..].
    cbn [parseAttributes] in Hrun. rewrite Hempty, Hitem in Hrun.
    rewrite (parseAttributes_keeps_other_keys _ _ _ key post _ _ Hsilent Hrun).
    apply lookup_insert_eq.
  - intros Hsilent.
    exact (parseAttributes_keeps_other_keys _ _ _ key tokens _ _ Hsilent Hrun).
Qed.

Lemma parseAttributes_last_value_witness :
  parseAttributes onlyBlanks isBlank trimBlanks sampleAttributes ∅
  = Parsed (<["gene_id" := "G2"]> (<["transcript_id" := "T 1"]>
              (<["gene_id" := "G1"]> ∅))) /\
  (<["gene_id" := "G2"]> (<["transcript_id" := "T 1"]>
     (<["gene_id" := "G1"]> (∅ : gmap string string)))) !! "gene_id"
  = Some "G2".
Proof.
  assert (Hrun : parseAttributes onlyBlanks isBlank trimBlanks
                   sampleAttributes ∅
                 = Parsed (<["gene_id" := "G2"]>
                             (<["transcript_id" := "T 1"]>
                                (<["gene_id" := "G1"]> ∅))))
    by reflexivity.
  split; [exact Hrun |].
  apply (proj1 (parseAttributes_last_value_wins onlyBlanks isBlank trimBlanks
                  sampleAttributes ∅ _ "gene_id" Hrun)
           ["gene_id " ++ quoted "G1"; " transcript_id " ++ quoted "T 1"; "  "]
           [] (" gene_id " ++ quoted "G2") "G2");
    try reflexivity.
  intros t k v Ht. inversion Ht.
Defined.

(** ** The output iterator past the end of its upstream *)

(** X20: over a finite upstream the output iterator hands on every block
    in order and then the null pointer at each further call.  With a
    sink, the sink holds the header and then the blocks in order, and the
    calls made past the end write nothing more; without a sink there is
    none afterwards either. *)
Theorem OutputMafIterator_writes_nothing_past_the_end
    (writeHeader : bool -> ostream -> ostream)
    (writeBlock : bool -> ostream -> MafBlock -> ostream)
    (message : option OutputStream) (out : option ostream) (mask : bool)
    (blocks : list MafBlock) (k : nat) :
  let self := OutputMafIterator_new writeHeader message listSource out mask in
  let result :=
    OutputMafIterator_run writeBlock (length blocks + k) self blocks in
  fst result = ((Some <$> blocks) ++ replicate k None)%list /\
  snd (snd result) = [] /\
  output_ (fst (snd result))
  = (fun o => fold_left (writeBlock mask) blocks (writeHeader mask o)) <$> out.
Proof.
  cbn zeta. unfold OutputMafIterator_new.
  destruct out as [o |];
    rewrite OutputMafIterator_run_through by reflexivity; now split_and!.
Qed.
